(** * Harness hooks: task eligibility, lease reaping, state store, stop loops

    A shallow embedding of the hook helpers of the harness skill
    ([skills/harness/hooks/_harness_common.py] and
    [skills/harness/hooks/self-reflect-stop.py]) together with the
    properties stated about them.

    Layout:
    - [Py]: the Python values the hooks manipulate (JSON documents) and the
      builtins they call;
    - [Common]: the task helpers of [_harness_common.py];
    - [Store]: [load_json], [parse_tasks] and [atomic_write_json] over a
      file system;
    - [SafetyValve]: the consecutive-block counter of the stop hook;
    - [Reflect]: [main] of [self-reflect-stop.py]. *)

From Stdlib Require Import ZArith String Ascii List OrdersEx.
From Stdlib Require Import DecimalString DecimalPos DecimalZ.
From stdpp Require Import gmap strings list fin_maps sorting.

#[local] Set Warnings "-register-all".
#[local] Open Scope string_scope.
#[local] Open Scope list_scope.
#[local] Open Scope Z_scope.

(* ===================================================================== *)
(** ** Python values and builtins *)
(* ===================================================================== *)

Module Py.

(** A Python [float] as [json.load] can produce it: a finite value (kept as
    a fraction), [NaN], or an infinity. *)
Inductive pyfloat : Type :=
| FFinite (num : Z) (den : positive)
| FNan
| FInf (negative : bool).

(** The values [json.load] returns.  Objects are [dict]s with string keys. *)
Inductive value : Type :=
| VNone
| VBool (b : bool)
| VInt (z : Z)
| VFloat (f : pyfloat)
| VStr (s : string)
| VList (l : list value)
| VDict (d : gmap string value).

Abbreviation dict := (gmap string value).

(** An aware or naive [datetime]: wall-clock microseconds since the epoch
    and the UTC offset in microseconds ([None] when [tzinfo is None]).
    The wall clock of a [datetime] lies between [datetime.min] and
    [datetime.max]; arithmetic that would leave that range raises
    [OverflowError], which [Common.parse_iso] models. *)
Record datetime : Type := { dt_wall : Z; dt_offset : option Z }.

(** [str(n)] for an [int]. *)
Definition py_str_int (n : Z) : string := NilEmpty.string_of_int (Z.to_int n).

(** The builtins whose text the hooks do not contain.  [py_repr] is [repr]
    on floats and containers, [py_int_of_str] is [int] on a [str] ([None]
    for [ValueError]), [py_strip] is [str.strip], [fromisoformat] is
    [datetime.fromisoformat] ([None] when it raises), [json_loads] is the
    decoder behind [json.load] ([None] for a decoding error) and
    [json_dumps_indent2] is [json.dumps(_, ensure_ascii=False, indent=2)].
    The two laws say that [int] and [strip] read back what [str] printed
    for an integer. *)
Class PyRuntime : Type := {
  py_repr : value → string;
  py_int_of_str : string → option Z;
  py_strip : string → string;
  fromisoformat : string → option datetime;
  json_loads : string → option value;
  json_dumps_indent2 : value → string;
  int_of_str_decimal : ∀ n : Z, py_int_of_str (py_str_int n) = Some n;
  strip_decimal : ∀ n : Z, py_strip (py_str_int n) = py_str_int n
}.

(** Truth value of an object, as [if v], [not v] and [v or d] test it. *)
Definition truthy (v : value) : bool :=
  match v with
  | VNone => false
  | VBool b => b
  | VInt z => negb (z =? 0)
  | VFloat (FFinite n _) => negb (n =? 0)
  | VFloat _ => true
  | VStr s => negb (String.eqb s "")
  | VList l => negb (bool_decide (length l = 0%nat))
  | VDict d => negb (bool_decide (size d = 0%nat))
  end.

(** [v or d]. *)
Definition py_or (v d : value) : value := if truthy v then v else d.

(** [d.get(k, dflt)]. *)
Definition dict_get (d : dict) (k : string) (dflt : value) : value :=
  default dflt (d !! k).

Definition is_list (v : value) : bool :=
  match v with VList _ => true | _ => false end.

Definition is_dict (v : value) : bool :=
  match v with VDict _ => true | _ => false end.

Section Builtins.
Context `{PyRuntime}.

(** [str(v)]. *)
Definition py_str (v : value) : string :=
  match v with
  | VNone => "None"
  | VBool true => "True"
  | VBool false => "False"
  | VInt z => py_str_int z
  | VStr s => s
  | VFloat _ | VList _ | VDict _ => py_repr v
  end.

(** [int(v)]; [None] stands for the [ValueError], [TypeError] or
    [OverflowError] that [int] raises. *)
Definition py_int (v : value) : option Z :=
  match v with
  | VBool b => Some (if b then 1 else 0)
  | VInt z => Some z
  | VFloat (FFinite n d) => Some (Z.quot n (Z.pos d))
  | VFloat _ => None
  | VStr s => py_int_of_str s
  | VNone | VList _ | VDict _ => None
  end.
End Builtins.

End Py.

Import Py.

(* ===================================================================== *)
(** ** [_harness_common.py]: task helpers *)
(* ===================================================================== *)

Module Common.

(** The one exception the task helpers let through: the [OverflowError]
    of [datetime] arithmetic. *)
Inductive error : Type := OverflowError.

(** How a call ends: it returns a value or it raises. *)
Inductive completion (A : Type) : Type :=
| Returns (a : A)
| Raises (e : error).
Arguments Returns {A} a.
Arguments Raises {A} e.

(** [datetime.min] and [datetime.max] read as UTC, in microseconds since
    the epoch: 0001-01-01T00:00:00 and 9999-12-31T23:59:59.999999. *)
Definition DATETIME_MIN : Z := -62135596800000000.
Definition DATETIME_MAX : Z := 253402300799999999.

Section Tasks.
Context `{PyRuntime}.

(** [s.endswith("Z")] together with [s[:-1]]. *)
Definition ends_with_Z (s : string) : option string :=
  match String.length s with
  | O => None
  | S n => if String.eqb (String.substring n 1 s) "Z"
           then Some (String.substring 0 n s) else None
  end.

(** [dt.astimezone(timezone.utc)] for an aware [dt]: the wall clock less
    the offset.  The subtraction raises [OverflowError] when its result
    is not a [datetime]; with a zero offset the result is the wall clock
    of [dt] itself, which is one. *)
Definition astimezone_utc (wall offset : Z) : completion Z :=
  let utc := wall - offset in
  if (DATETIME_MIN <=? utc) && (utc <=? DATETIME_MAX) then Returns utc
  else Raises OverflowError.

(** [parse_iso(ts)]: the instant in UTC microseconds, [None] when the
    value is not a non-blank string or [fromisoformat] rejects it.  Only
    [fromisoformat] is inside the [try]: the conversion to UTC that
    follows can raise. *)
Definition parse_iso (ts : value) : completion (option Z) :=
  match ts with
  | VStr raw =>
      let s := py_strip raw in
      if String.eqb s "" then Returns None
      else
        let s := match ends_with_Z s with
                 | Some body => body +:+ "+00:00"
                 | None => s
                 end in
        match fromisoformat s with
        | None => Returns None
        | Some dt =>
            (* a naive [dt] is given [tzinfo=timezone.utc] *)
            let offset := default 0 (dt_offset dt) in
            match astimezone_utc (dt_wall dt) offset with
            | Returns utc => Returns (Some utc)
            | Raises e => Raises e
            end
        end
  | _ => Returns None
  end.

(** [priority_rank(v)]. *)
Definition priority_rank (v : value) : Z :=
  let s := py_str (py_or v (VStr "")) in
  if String.eqb s "P0" then 0
  else if String.eqb s "P1" then 1
  else if String.eqb s "P2" then 2
  else 9.

(** [task_attempts(t)]. *)
Definition task_attempts (t : dict) : Z :=
  default 0 (py_int (py_or (dict_get t "attempts" VNone) (VInt 0))).

(** [task_max_attempts(t)]. *)
Definition task_max_attempts (t : dict) : Z :=
  match dict_get t "max_attempts" VNone with
  | VNone => 3
  | v => default 3 (py_int v)
  end.

Definition task_status (t : dict) : string :=
  py_str (dict_get t "status" (VStr "")).

Definition task_id (t : dict) : string :=
  py_str (dict_get t "id" (VStr "")).

(** [deps_completed(t, completed_ids)]. *)
Definition deps_completed (t : dict) (completed_ids : gset string) : bool :=
  match py_or (dict_get t "depends_on" VNone) (VList []) with
  | VList deps => forallb (λ d, bool_decide (py_str d ∈ completed_ids)) deps
  | _ => false
  end.

(** [completed_ids(tasks)]. *)
Definition completed_ids (tasks : list dict) : gset string :=
  list_to_set (task_id <$> filter (λ t, task_status t = "completed") tasks).

(** The sort key of [eligible_tasks] and Python's [<] on such tuples. *)
Definition key (t : dict) : Z * string :=
  (priority_rank (dict_get t "priority" VNone), task_id t).

Definition key_ltb (a b : Z * string) : bool :=
  (a.1 <? b.1) || ((a.1 =? b.1) && String.ltb a.2 b.2).

(** [list.sort(key=key)] is a stable sort: it yields the one ordered
    rearrangement that keeps tasks with equal keys in their input order.
    Insertion from the right computes that rearrangement. *)
Fixpoint insert_by_key (x : dict) (l : list dict) : list dict :=
  match l with
  | [] => [x]
  | y :: l' => if key_ltb (key y) (key x) then y :: insert_by_key x l'
               else x :: l
  end.

Definition sort_by_key (l : list dict) : list dict :=
  foldr insert_by_key [] l.

(** [eligible_tasks(tasks)]. *)
Definition eligible_tasks (tasks : list dict) : list dict * list dict :=
  let done := completed_ids tasks in
  let pending :=
    filter (λ t, task_status t = "pending" ∧ deps_completed t done = true)
           tasks in
  let retry :=
    filter (λ t, task_status t = "failed"
                 ∧ task_attempts t < task_max_attempts t
                 ∧ deps_completed t done = true) tasks in
  (sort_by_key pending, sort_by_key retry).

(** [pick_next(pending, retry)]. *)
Definition pick_next (pending retry : list dict) : option dict :=
  match pending with
  | t :: _ => Some t
  | [] => match retry with
          | t :: _ => Some t
          | [] => None
          end
  end.

(** The entry [reap_stale_leases] appends to [error_log]; [holder] is
    [t.get('claimed_by')]. *)
Definition timeout_message (holder : value) : string :=
  "[SESSION_TIMEOUT] Lease expired (claimed_by=" +:+ py_str holder +:+ ")".

(** The body of the loop of [reap_stale_leases] past its two [continue]
    guards, statement by statement.  [log.append(err)] mutates the list
    held by the task, which in a document tree is the update of that
    field. *)
Definition expire_lease (t : dict) : dict :=
  let t := <["attempts" := VInt (task_attempts t + 1)]> t in
  let err := VStr (timeout_message (dict_get t "claimed_by" VNone)) in
  let t := match t !! "error_log" with
           | Some (VList log) => <["error_log" := VList (log ++ [err])]> t
           | _ => <["error_log" := VList [err]]> t
           end in
  let t := <["status" := VStr "failed"]> t in
  let t := delete "claimed_by" t in
  let t := delete "lease_expires_at" t in
  delete "claimed_at" t.

(** The loop of [reap_stale_leases], threading the [changed] flag.  The
    tasks are mutated in place, so the list as the call leaves it is
    returned next to how the call ends: when [parse_iso] raises at a
    task, the tasks before it have been dealt with and that task and
    those after it are as they were.  [now] is an aware [datetime], as
    [utc_now()] gives it, held as its UTC instant in microseconds. *)
Fixpoint reap_loop (tasks : list dict) (now : Z) (changed : bool)
  : list dict * completion bool :=
  match tasks with
  | [] => ([], Returns changed)
  | t :: rest =>
      if negb (String.eqb (task_status t) "in_progress") then
        let '(rest', r) := reap_loop rest now changed in
        (t :: rest', r)
      else
        match parse_iso (dict_get t "lease_expires_at" VNone) with
        | Raises e => (t :: rest, Raises e)
        | Returns None =>
            let '(rest', r) := reap_loop rest now changed in
            (t :: rest', r)
        | Returns (Some exp) =>
            if now <? exp then
              let '(rest', r) := reap_loop rest now changed in
              (t :: rest', r)
            else
              let '(rest', r) := reap_loop rest now true in
              (expire_lease t :: rest', r)
        end
  end.

(** [reap_stale_leases(tasks, now)]: the list as the call leaves it, and
    the flag it returns or the exception it raises. *)
Definition reap_stale_leases (tasks : list dict) (now : Z)
  : list dict * completion bool :=
  reap_loop tasks now false.

(** *** The vocabulary of the properties

    The properties speak of the fields of a task document.  What follows
    reads those fields one by one, without the helpers above. *)

(** The status and the id of a task as text: the field when it is a
    string, [str] of any other value, the empty text when the field is
    absent. *)
Definition status_of (t : dict) : string :=
  match t !! "status" with
  | Some v => py_str v
  | None => ""
  end.

Definition id_of (t : dict) : string :=
  match t !! "id" with
  | Some v => py_str v
  | None => ""
  end.

(** The attempts a task has used: the integer in [attempts], a float
    truncated, the number a string spells; 0 when the field is absent or
    holds anything else. *)
Definition attempts_of (t : dict) : Z :=
  match t !! "attempts" with
  | Some (VInt n) => n
  | Some (VBool true) => 1
  | Some (VFloat (FFinite n d)) => Z.quot n (Z.pos d)
  | Some (VStr s) => if String.eqb s "" then 0
                     else default 0 (py_int_of_str s)
  | _ => 0
  end.

(** The attempts a task is allowed: the integer in [max_attempts], read
    the same way; 3 when the field is absent, [null], or holds anything
    that is not a number. *)
Definition max_attempts_of (t : dict) : Z :=
  match t !! "max_attempts" with
  | Some (VInt n) => n
  | Some (VBool b) => if b then 1 else 0
  | Some (VFloat (FFinite n d)) => Z.quot n (Z.pos d)
  | Some (VStr s) => default 3 (py_int_of_str s)
  | _ => 3
  end.

(** The rank of the priority of a task: 0, 1 and 2 for the strings [P0],
    [P1] and [P2], and 9 for any other string, for an absent or falsy
    field, and for any other value, whose text is not one of the
    three. *)
Definition rank_of_text (s : string) : Z :=
  if String.eqb s "P0" then 0
  else if String.eqb s "P1" then 1
  else if String.eqb s "P2" then 2
  else 9.

Definition rank_of (t : dict) : Z :=
  match t !! "priority" with
  | Some (VStr s) => rank_of_text s
  | Some v => if truthy v then rank_of_text (py_str v) else 9
  | None => 9
  end.

(** The pair the ready lists are ordered by. *)
Definition order_key (t : dict) : Z * string := (rank_of t, id_of t).

(** The dependencies a task declares, as [deps_completed] reads them:
    none when [depends_on] is absent or falsy, the list when it is one;
    any other value is not a list of dependencies. *)
Definition declared_deps (t : dict) : option (list value) :=
  match py_or (dict_get t "depends_on" VNone) (VList []) with
  | VList deps => Some deps
  | _ => None
  end.

(** All dependencies completed, in the words of the eligibility
    invariant: every declared dependency is the id of a task of the list
    whose status is [completed]. *)
Definition deps_met (tasks : list dict) (t : dict) : Prop :=
  ∃ deps, declared_deps t = Some deps
          ∧ ∀ d, d ∈ deps →
                 ∃ c, c ∈ tasks ∧ task_status c = "completed"
                      ∧ task_id c = py_str d.

(** The same from the fields alone: the list in [depends_on], no
    dependency when the field is absent or falsy, and every entry the id
    of a task whose [status] is [completed]. *)
Definition dependencies_of (t : dict) : option (list value) :=
  match t !! "depends_on" with
  | None => Some []
  | Some (VList deps) => Some deps
  | Some v => if truthy v then None else Some []
  end.

Definition dependencies_completed (tasks : list dict) (t : dict) : Prop :=
  ∃ deps, dependencies_of t = Some deps
          ∧ ∀ d, d ∈ deps →
                 ∃ c, c ∈ tasks ∧ status_of c = "completed"
                      ∧ id_of c = py_str d.

(** Ascending order on sort keys: priority rank first, id as tiebreak. *)
Definition key_le (a b : Z * string) : Prop :=
  a.1 < b.1 ∨ (a.1 = b.1 ∧ String.leb a.2 b.2 = true).

(** A timestamp with a final [Z] spelled as the offset [+00:00]. *)
Fixpoint utc_text (s : string) : string :=
  match s with
  | EmptyString => EmptyString
  | String c rest =>
      match rest with
      | EmptyString => if Ascii.eqb c "Z" then "+00:00" else s
      | String _ _ => String c (utc_text rest)
      end
  end.

(** The [datetime] the lease of a task names: [lease_expires_at] must be
    a string that is not blank and that [fromisoformat] accepts once
    stripped. *)
Definition lease_datetime (t : dict) : option datetime :=
  match t !! "lease_expires_at" with
  | Some (VStr raw) =>
      if String.eqb (py_strip raw) "" then None
      else fromisoformat (utc_text (py_strip raw))
  | _ => None
  end.

(** The instant of a [datetime] in UTC, a naive one being read as UTC,
    and whether that instant is itself a [datetime]. *)
Definition utc_instant (dt : datetime) : Z :=
  dt_wall dt - default 0 (dt_offset dt).

Definition in_datetime_range (z : Z) : Prop :=
  DATETIME_MIN ≤ z ≤ DATETIME_MAX.

(** A task whose lease is due at [now]: it is [in_progress] and its
    [lease_expires_at] is present, parses, and is at or before [now]. *)
Definition lease_due (t : dict) (now : Z) : Prop :=
  status_of t = "in_progress"
  ∧ ∃ dt, lease_datetime t = Some dt
          ∧ in_datetime_range (utc_instant dt)
          ∧ utc_instant dt ≤ now.

(** A task whose lease cannot be brought to UTC: it is [in_progress] and
    its [lease_expires_at] parses to a [datetime] whose UTC instant is
    before year 1 or after year 9999. *)
Definition lease_overflows (t : dict) : Prop :=
  status_of t = "in_progress"
  ∧ ∃ dt, lease_datetime t = Some dt
          ∧ ¬ in_datetime_range (utc_instant dt).

(** The entries of [error_log] before reaping: those of the list, none
    when the field is absent or not a list. *)
Definition prior_log (t : dict) : list value :=
  match t !! "error_log" with
  | Some (VList log) => log
  | _ => []
  end.

(** The holder a timeout message names: the text of [claimed_by], and
    [None] when the task has no such field. *)
Definition holder_text (t : dict) : string :=
  match t !! "claimed_by" with
  | Some v => py_str v
  | None => "None"
  end.

(** A task [t'] that is [t] with its lease reaped: [failed], one more
    attempt, one timeout message naming the holder after the former
    entries of [error_log], the three lease fields gone, and every other
    field as in [t]. *)
Definition reaped (t t' : dict) : Prop :=
  t' !! "status" = Some (VStr "failed")
  ∧ t' !! "attempts" = Some (VInt (attempts_of t + 1))
  ∧ t' !! "error_log"
    = Some (VList (prior_log t
                   ++ [VStr ("[SESSION_TIMEOUT] Lease expired (claimed_by="
                             +:+ holder_text t +:+ ")")]))
  ∧ t' !! "claimed_by" = None
  ∧ t' !! "lease_expires_at" = None
  ∧ t' !! "claimed_at" = None
  ∧ ∀ k, k ∉ ["attempts"; "error_log"; "status"; "claimed_by";
              "lease_expires_at"; "claimed_at"] →
         t' !! k = t !! k.

End Tasks.

End Common.

(* ===================================================================== *)
(** ** The durable state store *)
(* ===================================================================== *)

Module Store.

(** Exceptions the store raises.  [JSONDecodeError] is what [json.load]
    raises on a text that is not JSON; in Python it is a subclass of
    [ValueError], told apart here from the [ValueError]s the helpers
    raise themselves by their message. *)
Inductive exn : Type :=
| ValueError (msg : string)
| JSONDecodeError
| FileNotFoundError
| UnicodeEncodeError.

Inductive result (A : Type) : Type :=
| Ok (a : A)
| Raise (e : exn).
Arguments Ok {A} a.
Arguments Raise {A} e.

(** A resolved path, innermost component first: [name :: parent]. *)
Abbreviation path := (list string).

(** The regular files of the file system and their text. *)
Abbreviation fs := (gmap (list string) string).

(** Code that reads and writes files: the file system is threaded through,
    and an exception leaves it as it was when the exception was raised. *)
Definition io (A : Type) : Type := fs → result A * fs.

#[export] Instance io_ret : MRet io := λ A a σ, (Ok a, σ).

#[export] Instance io_bind : MBind io :=
  λ A B k m σ, match m σ with
               | (Ok a, σ') => k a σ'
               | (Raise e, σ') => (Raise e, σ')
               end.

Definition io_lift {A} (r : result A) : io A := λ σ, (r, σ).

(** [path.name] and [path.with_name(name)]. *)
Definition path_name (p : path) : string :=
  match p with
  | name :: _ => name
  | [] => ""
  end.

Definition with_name (p : path) (name : string) : result path :=
  match p with
  | _ :: parent => Ok (name :: parent)
  | [] => Raise (ValueError "path has an empty name")
  end.

(** Text is held as the bytes of its UTF-8 form.  A Python [str] can also
    hold a lone surrogate, which [json.load] produces from an escape such
    as [\ud83d] and [json.dumps(_, ensure_ascii=False)] writes back as it
    is; it is held as the three bytes [ED A0..BF 80..BF], a sequence no
    UTF-8 text contains.  [utf8_encodable s] says that
    [s.encode("utf-8")] does not raise: no byte [ED] is followed by a
    byte from [A0] to [BF]. *)
Definition surrogate_lead (c d : ascii) : bool :=
  let m := nat_of_ascii c in
  let n := nat_of_ascii d in
  ((m =? 237) && (160 <=? n) && (n <=? 191))%nat.

Fixpoint utf8_encodable (s : string) : bool :=
  match s with
  | EmptyString => true
  | String c rest =>
      match rest with
      | EmptyString => true
      | String d _ => negb (surrogate_lead c d)
      end && utf8_encodable rest
  end.

(** [shutil.copy2(src, dst)]. *)
Definition copy2 (src dst : path) : io unit :=
  λ σ, match σ !! src with
       | None => (Raise FileNotFoundError, σ)
       | Some text => (Ok tt, <[dst := text]> σ)
       end.

(** [Path.write_text(text, encoding="utf-8")]: the file is opened for
    writing, which creates or empties it, and the text is then encoded
    and written; when the text cannot be encoded the write raises and the
    file stays empty. *)
Definition write_text (p : path) (text : string) : io unit :=
  λ σ, if utf8_encodable text then (Ok tt, <[p := text]> σ)
       else (Raise UnicodeEncodeError, <[p := ""]> σ).

(** [os.replace(src, dst)]. *)
Definition os_replace (src dst : path) : io unit :=
  λ σ, match σ !! src with
       | None => (Raise FileNotFoundError, σ)
       | Some text => (Ok tt, <[dst := text]> (delete src σ))
       end.

Section Store.
Context `{PyRuntime}.

Definition newline : string := String "010"%char "".

(** [load_json(path)]. *)
Definition load_json (p : path) : io dict :=
  λ σ, match σ !! p with
       | None => (Raise FileNotFoundError, σ)
       | Some text =>
           match json_loads text with
           | None => (Raise JSONDecodeError, σ)
           | Some (VDict data) => (Ok data, σ)
           | Some _ =>
               (Raise (ValueError (path_name p +:+ " must be a JSON object")),
                σ)
           end
       end.

(** [parse_tasks(state)]. *)
Definition parse_tasks (state : dict) : result (list dict) :=
  match py_or (dict_get state "tasks" VNone) (VList []) with
  | VList tasks_raw =>
      Ok (omap (λ t, match t with VDict d => Some d | _ => None end)
               tasks_raw)
  | _ => Raise (ValueError "tasks must be a list")
  end.

(** [atomic_write_json(path, data)]. *)
Definition atomic_write_json (p : path) (data : dict) : io unit :=
  bak ← io_lift (with_name p (path_name p +:+ ".bak"));
  tmp ← io_lift (with_name p (path_name p +:+ ".tmp"));
  copy2 p bak;;
  write_text tmp (json_dumps_indent2 (VDict data) +:+ newline);;
  os_replace tmp p.

End Store.

End Store.

(* ===================================================================== *)
(** ** The termination safety valve *)
(* ===================================================================== *)

Module SafetyValve.

(** The persisted pair of the valve. *)
Record valve : Type := {
  consecutive_blocks : nat;
  last_completed : nat
}.

Inductive decision : Type :=
| Allow
| Block.

Section Valve.
(** The bound on consecutive blocks. *)
Variable threshold : nat.

(** Modelled from the spec: the stop hook ([harness-stop.py]) that keeps
    the counter is not among the sources; only its tests are.  A block
    decision with the completed count unchanged increments the counter;
    a block decision after the completed count increased resets it to 1
    and records the new count. *)
Definition on_block (v : valve) (completed : nat) : valve :=
  if (last_completed v <? completed)%nat
  then {| consecutive_blocks := 1; last_completed := completed |}
  else {| consecutive_blocks := S (consecutive_blocks v);
          last_completed := last_completed v |}.

(** Modelled from the spec: the valve around the decision of the task
    engine, the part of [harness-stop.py] the sources lack.  With the
    counter at or above the threshold and the host's re-entrancy signal
    set, the decision is allow whatever the engine decided; otherwise the
    engine's decision stands, and a block is counted by [on_block]. *)
Definition valve_step (v : valve) (completed : nat) (reentrant : bool)
    (engine : decision) : decision * valve :=
  if (threshold <=? consecutive_blocks v)%nat && reentrant then (Allow, v)
  else match engine with
       | Block => (Block, on_block v completed)
       | Allow => (Allow, v)
       end.

(** Modelled from the spec: successive invocations of the stop hook, each
    with the completed count it observes, its re-entrancy signal and the
    engine's decision; the counter file carries the valve from one
    invocation to the next. *)
Fixpoint valve_run (v : valve) (invocations : list (nat * bool * decision))
  : list decision * valve :=
  match invocations with
  | [] => ([], v)
  | (completed, reentrant, engine) :: rest =>
      let '(d, v') := valve_step v completed reentrant engine in
      let '(ds, v'') := valve_run v' rest in
      (d :: ds, v'')
  end.

End Valve.

End SafetyValve.

(* ===================================================================== *)
(** ** [self-reflect-stop.py] *)
(* ===================================================================== *)

Module Reflect.

Import Store.

Definition DEFAULT_MAX_ITERATIONS : Z := 5.

(** What one invocation of the hook sees besides its payload.  [files]
    holds the regular files of a POSIX file system by resolved path, two
    different paths being two different files; [resolve s] is
    [Path(s).resolve()] ([None] when it raises), [writable p] says
    whether [write_text] on [p] succeeds, and [transcript_prompt v] is what
    [_extract_original_prompt(v)] returns, the scan of the transcript file
    being left to the host. *)
Record world : Type := {
  files : gmap (list string) string;
  environ : gmap string string;
  getcwd : string;
  gettempdir : list string;
  resolve : string → option (list string);
  writable : list string → bool;
  transcript_prompt : value → string
}.

Definition with_files (w : world) (σ : fs) : world :=
  {| files := σ; environ := environ w; getcwd := getcwd w;
     gettempdir := gettempdir w; resolve := resolve w;
     writable := writable w; transcript_prompt := transcript_prompt w |}.

(** How an invocation ends: it returns 0 having printed nothing, it prints
    a block decision and returns 0, or an exception nobody catches ends the
    process. *)
Inductive outcome : Type :=
| Silent
| Block (reason : string)
| Crash.

Definition is_file (w : world) (p : path) : bool :=
  bool_decide (is_Some (files w !! p)).

(** [list(base.parents)]. *)
Fixpoint parents (p : path) : list path :=
  match p with
  | [] => []
  | _ :: parent => parent :: parents parent
  end.

(** [os.environ.get(k)] tested for truth. *)
Definition env_nonempty (w : world) (k : string) : option string :=
  match environ w !! k with
  | Some s => if String.eqb s "" then None else Some s
  | None => None
  end.

(** The loop of [find_harness_root] over the candidate directories. *)
Fixpoint search_candidates (w : world) (candidates : list string)
    (seen : list path) : option path :=
  match candidates with
  | [] => None
  | c :: rest =>
      match resolve w c with
      | None => search_candidates w rest seen
      | Some base =>
          if bool_decide (base ∈ seen) then search_candidates w rest seen
          else
            match List.find (λ parent, is_file w ("harness-tasks.json" :: parent))
                            (base :: take 8 (parents base)) with
            | Some parent => Some parent
            | None => search_candidates w rest (base :: seen)
            end
      end
  end.

(** [find_harness_root(payload)]; [None] when [Path(cwd)] raises
    [TypeError].  A state root that does not resolve holds no file. *)
Definition find_harness_root (w : world) (payload : dict)
  : option (option path) :=
  let env_root :=
    match env_nonempty w "HARNESS_STATE_ROOT" with
    | Some s =>
        match resolve w s with
        | Some p => if is_file w ("harness-tasks.json" :: p) then Some p
                    else None
        | None => None
        end
    | None => None
    end in
  match env_root with
  | Some p => Some (Some p)
  | None =>
      let candidates :=
        match env_nonempty w "CLAUDE_PROJECT_DIR" with
        | Some s => [s]
        | None => []
        end in
      match py_or (dict_get payload "cwd" VNone) (VStr (getcwd w)) with
      | VStr cwd => Some (search_candidates w (candidates ++ [cwd]) [])
      | _ => None
      end
  end.

(** [s.split("\n")[0]]. *)
Fixpoint first_line (s : string) : string :=
  match s with
  | EmptyString => EmptyString
  | String c rest => if Ascii.eqb c "010"%char then EmptyString
                     else String c (first_line rest)
  end.

(** ["\n".join(parts)]. *)
Fixpoint join_lines (parts : list string) : string :=
  match parts with
  | [] => ""
  | [x] => x
  | x :: rest => x +:+ newline +:+ join_lines rest
  end.

(** The guard on [last_assistant_message]: [len] of a number or boolean,
    and the slice of a long list or dict joined to a string, raise. *)
Definition last_message_raises (v : value) : bool :=
  truthy v &&
  match v with
  | VStr _ => false
  | VList l => bool_decide (3000 < length l)%nat
  | VDict d => bool_decide (3000 < size d)%nat
  | _ => true
  end.

Definition checklist : string :=
  newline +:+ "🔍 自省清单："
  +:+ newline +:+ "1. 对照原始请求，逐项确认每个需求点是否已完整实现"
  +:+ newline +:+ "2. 检查是否有遗漏的边界情况、错误处理或异常场景"
  +:+ newline +:+ "3. 代码质量：是否有可以改进的地方（可读性、性能、安全性）"
  +:+ newline +:+ "4. 是否需要补充测试或文档"
  +:+ newline +:+ "5. 最终确认：所有改动是否一致且不互相冲突"
  +:+ newline +:+ newline
  +:+ "如果一切已完成，简要总结成果即可结束。如果发现问题，继续修复。".

Definition heading (iteration max_iter : Z) : string :=
  "[Self-Reflect] 迭代 " +:+ py_str_int iteration +:+ "/"
  +:+ py_str_int max_iter +:+ " — 请在继续之前进行自省检查：".

Definition reflect_reason (iteration max_iter : Z) (original_prompt : string)
  : string :=
  join_lines
    ([heading iteration max_iter]
     ++ (if String.eqb original_prompt "" then []
         else [newline +:+ "📋 原始请求：" +:+ newline +:+ original_prompt])
     ++ [checklist]).

(** [sub in s]. *)
Definition contains (sub s : string) : Prop :=
  ∃ before after, s = before +:+ sub +:+ after.

(** A text that is one component of a path: it holds no [/]. *)
Definition plain_name (s : string) : bool :=
  forallb (λ c, negb (Ascii.eqb c "/")) (list_ascii_of_string s).

Section Hook.
Context `{PyRuntime}.

(** [_counter_path(session_id)].  The name [claude-reflect-<id>] is taken
    as one component of the path, which it is when the text of the id
    holds no [/]: [pathlib] splits a name at each [/] and drops empty and
    [.] parts, so that the ids [a] and [a/] name one file and [x/y] names
    a file in a sub-directory.  What is said of the counters of two
    sessions, or of the files other than the counter, is therefore said
    of ids that are [plain_name]s. *)
Definition _counter_path (w : world) (session_id : value) : path :=
  ("claude-reflect-" +:+ py_str session_id) :: gettempdir w.

(** [_read_counter(session_id)]. *)
Definition _read_counter (w : world) (session_id : value) : Z :=
  match files w !! _counter_path w session_id with
  | Some text => default 0 (py_int_of_str (first_line (py_strip text)))
  | None => 0
  end.

(** [_write_counter(session_id, count)]. *)
Definition _write_counter (w : world) (session_id : value) (count : Z)
  : world :=
  let p := _counter_path w session_id in
  if writable w p then with_files w (<[p := py_str_int count]> (files w))
  else w.

(** [int(os.environ.get("REFLECT_MAX_ITERATIONS", DEFAULT_MAX_ITERATIONS))]
    with its fallback. *)
Definition max_iterations (w : world) : Z :=
  match environ w !! "REFLECT_MAX_ITERATIONS" with
  | Some s => default DEFAULT_MAX_ITERATIONS (py_int_of_str s)
  | None => DEFAULT_MAX_ITERATIONS
  end.

(** [main()]: the outcome and the world it leaves behind. *)
Definition main (w : world) (payload : dict) : outcome * world :=
  let session_id := dict_get payload "session_id" (VStr "") in
  if negb (truthy session_id) then (Silent, w)
  else
    match find_harness_root w payload with
    | None => (Crash, w)
    | Some None => (Silent, w)
    | Some (Some root) =>
        if is_file w (".harness-active" :: root) then (Silent, w)
        else
          let max_iter := max_iterations w in
          if max_iter <=? 0 then (Silent, w)
          else
            let count := _read_counter w session_id in
            if max_iter <=? count then (Silent, w)
            else
              let w' := _write_counter w session_id (count + 1) in
              let original_prompt :=
                transcript_prompt w
                  (dict_get payload "transcript_path" (VStr "")) in
              if last_message_raises
                   (dict_get payload "last_assistant_message" (VStr ""))
              then (Crash, w')
              else (Block (reflect_reason (count + 1) max_iter
                                          original_prompt), w')
    end.

(** Successive invocations of the hook with the same payload. *)
Fixpoint invocations (n : nat) (w : world) (payload : dict)
  : list outcome * world :=
  match n with
  | O => ([], w)
  | S n' =>
      let '(o, w') := main w payload in
      let '(os, w'') := invocations n' w' payload in
      (o :: os, w'')
  end.

(** *** The vocabulary of the properties *)

(** Two worlds that agree on everything [find_harness_root] looks at. *)
Definition same_discovery (w w' : world) : Prop :=
  environ w' = environ w ∧ getcwd w' = getcwd w
  ∧ resolve w' = resolve w
  ∧ ∀ parent, is_file w' ("harness-tasks.json" :: parent)
              = is_file w ("harness-tasks.json" :: parent).

(** A session whose hook is armed: it has an identity, the task document
    is found, no session is active, the loop is enabled, its counter can
    be written, and the payload's last message does not break the
    hook. *)
Definition armed (w : world) (payload : dict) (root : path) (max_iter : Z)
  : Prop :=
  truthy (dict_get payload "session_id" (VStr "")) = true
  ∧ find_harness_root w payload = Some (Some root)
  ∧ is_file w (".harness-active" :: root) = false
  ∧ max_iterations w = max_iter
  ∧ writable w (_counter_path w (dict_get payload "session_id" (VStr "")))
    = true
  ∧ last_message_raises
      (dict_get payload "last_assistant_message" (VStr "")) = false.

End Hook.

End Reflect.

(* ===================================================================== *)
(** ** [_harness_common.py]: status summary and session configuration *)
(* ===================================================================== *)

Module Summary.

Section Summary.
Context `{PyRuntime}.

(** The status a task is counted under: [str(t.get("status") or "pending")]. *)
Definition counted_status (t : dict) : string :=
  py_str (py_or (dict_get t "status" VNone) (VStr "pending")).

(** One turn of the loop of [status_counts]:
    [counts[s] = counts.get(s, 0) + 1]. *)
Definition count_task (counts : gmap string Z) (t : dict) : gmap string Z :=
  let s := counted_status t in
  <[s := default 0 (counts !! s) + 1]> counts.

(** [status_counts(tasks)]. *)
Definition status_counts (tasks : list dict) : gmap string Z :=
  foldl count_task ∅ tasks.

(** [get_session_config(state)]. *)
Definition get_session_config (state : dict) : dict :=
  match py_or (dict_get state "session_config" VNone) (VDict ∅) with
  | VDict cfg => cfg
  | _ => ∅
  end.

(** [is_concurrent(cfg)]. *)
Definition is_concurrent (cfg : dict) : bool :=
  String.eqb (py_str (py_or (dict_get cfg "concurrency_mode" VNone)
                            (VStr "exclusive")))
             "concurrent".

End Summary.

End Summary.

(* ===================================================================== *)
(** ** [hooks/pre-bash.py] *)
(* ===================================================================== *)

Module PreBash.

Definition DANGEROUS_PATTERNS : list string :=
  ["rm -rf /"; "rm -rf ~"; "dd if="; ":(){:|:&};:"; "mkfs."; "> /dev/sd"].

(** [pattern in command] on strings.  The patterns are ASCII, so a match on
    the encoded text is a match on the characters. *)
Fixpoint substringb (pattern s : string) : bool :=
  String.prefix pattern s
  || match s with
     | EmptyString => false
     | String _ rest => substringb pattern rest
     end.

(** How the process ends: the exit status and what it wrote to the error
    stream. *)
Record exit : Type := { status : Z; stderr : option string }.

(** The loop of [main] over the patterns. *)
Fixpoint scan (patterns : list string) (command : string) : exit :=
  match patterns with
  | [] => {| status := 0; stderr := None |}
  | pattern :: rest =>
      if substringb pattern command
      then {| status := 1;
              stderr := Some ("[CWF] BLOCKED: Dangerous command detected: "
                              +:+ pattern) |}
      else scan rest command
  end.

(** [main()] run with [sys.argv = argv]. *)
Definition main (argv : list string) : exit :=
  let command := match argv with
                 | _ :: command :: _ => command
                 | _ => ""
                 end in
  scan DANGEROUS_PATTERNS command.

End PreBash.

(* ===================================================================== *)
(** ** A reference runtime for the examples *)
(* ===================================================================== *)

Module Reference.

(** ASCII white space, as [str.strip] and [int] skip it. *)
Definition is_space (c : ascii) : bool :=
  let n := nat_of_ascii c in
  ((9 <=? n) && (n <=? 13) || (28 <=? n) && (n <=? 32))%nat.

Fixpoint lstrip (s : string) : string :=
  match s with
  | EmptyString => EmptyString
  | String c rest => if is_space c then lstrip rest else s
  end.

Fixpoint rstrip (s : string) : string :=
  match s with
  | EmptyString => EmptyString
  | String c rest =>
      let rest' := rstrip rest in
      if is_space c && String.eqb rest' "" then EmptyString
      else String c rest'
  end.

Definition strip (s : string) : string := rstrip (lstrip s).

(** [int] on a decimal numeral with an optional minus sign. *)
Definition int_of_str (s : string) : option Z :=
  match NilEmpty.int_of_string (strip s) with
  | Some (Decimal.Pos Decimal.Nil) | Some (Decimal.Neg Decimal.Nil) => None
  | Some d => Some (Z.of_int d)
  | None => None
  end.

(** The timestamps of the examples, as [datetime.fromisoformat] reads
    them. *)
Definition example_fromisoformat (s : string) : option datetime :=
  if String.eqb s "2026-01-01T00:00:00+00:00"
  then Some {| dt_wall := 1767225600000000; dt_offset := Some 0 |}
  else if String.eqb s "2026-01-01T00:00:00"
  then Some {| dt_wall := 1767225600000000; dt_offset := None |}
  else if String.eqb s "2026-01-01T01:00:00+01:00"
  then Some {| dt_wall := 1767229200000000; dt_offset := Some 3600000000 |}
  else if String.eqb s "9999-12-31T23:59:59-01:00"
  then Some {| dt_wall := 253402300799000000;
               dt_offset := Some (-3600000000) |}
  else None.

Definition no_space (s : string) : Prop :=
  Forall (λ c, is_space c = false) (list_ascii_of_string s).

End Reference.

(* ===================================================================== *)
(** ** Documents used by the examples *)
(* ===================================================================== *)

Module Scenarios.

(** [{id: t1, status: failed, attempts: 1, max_attempts: 3}] *)
Definition retry_t1 : dict :=
  <["id" := VStr "t1"]> (<["status" := VStr "failed"]>
  (<["attempts" := VInt 1]> (<["max_attempts" := VInt 3]> ∅))).

(** [{id: t2, status: pending, depends_on: [t1]}] *)
Definition blocked_t2 : dict :=
  <["id" := VStr "t2"]> (<["status" := VStr "pending"]>
  (<["depends_on" := VList [VStr "t1"]]> ∅)).

(** [{id: t1, priority: P2, status: pending, depends_on: []}] *)
Definition low_t1 : dict :=
  <["id" := VStr "t1"]> (<["priority" := VStr "P2"]>
  (<["status" := VStr "pending"]> (<["depends_on" := VList []]> ∅))).

(** [{id: t2, priority: P0, status: pending, depends_on: []}] *)
Definition high_t2 : dict :=
  <["id" := VStr "t2"]> (<["priority" := VStr "P0"]>
  (<["status" := VStr "pending"]> (<["depends_on" := VList []]> ∅))).

(** An [in_progress] task held by [worker-a] whose lease ended at the start
    of 2026, with one earlier failure on record. *)
Definition leased : dict :=
  <["id" := VStr "t1"]> (<["status" := VStr "in_progress"]>
  (<["attempts" := VInt 1]>
  (<["claimed_by" := VStr "worker-a"]>
  (<["claimed_at" := VStr "2025-12-31T23:00:00Z"]>
  (<["lease_expires_at" := VStr "2026-01-01T00:00:00Z"]>
  (<["error_log" := VList [VStr "first failure"]]> ∅)))))).

(** One second past the start of 2026, in UTC microseconds. *)
Definition after_expiry : Z := 1767225601000000.

(** An [in_progress] task whose lease runs to the last second of year
    9999 in a time zone one hour behind UTC: in UTC that second is in
    year 10000. *)
Definition far_lease : dict :=
  <["id" := VStr "t0"]> (<["status" := VStr "in_progress"]>
  (<["lease_expires_at" := VStr "9999-12-31T23:59:59-01:00"]> ∅)).

(** [{id: a, status: failed, attempts: 3, max_attempts: 5}] *)
Definition three_of_five : dict :=
  <["id" := VStr "a"]> (<["status" := VStr "failed"]>
  (<["attempts" := VInt 3]> (<["max_attempts" := VInt 5]> ∅))).

(** [{id: b, status: failed, attempts: 1, max_attempts: 1}] *)
Definition one_of_one : dict :=
  <["id" := VStr "b"]> (<["status" := VStr "failed"]>
  (<["attempts" := VInt 1]> (<["max_attempts" := VInt 1]> ∅))).

(** [{"tasks": "not a list"}] *)
Definition tasks_not_a_list : dict := <["tasks" := VStr "not a list"]> ∅.

(** [{"tasks": [1, "x"]}] *)
Definition tasks_without_objects : dict :=
  <["tasks" := VList [VInt 1; VStr "x"]]> ∅.

(** A project at [/proj] whose tasks are all completed and whose session
    has ended: the task document and the reflect marker are there, the
    active marker is not. *)
Definition drained_files : gmap (list string) string :=
  <[["harness-tasks.json"; "proj"] := "{}"]>
  (<[[".harness-reflect"; "proj"] := ""]> ∅).

(** The same project with a task document left from an earlier run and no
    reflect marker. *)
Definition stale_files : gmap (list string) string :=
  <[["harness-tasks.json"; "proj"] := "{}"]> ∅.

Definition project_world (σ : gmap (list string) string) : Reflect.world :=
  {| Reflect.files := σ;
     Reflect.environ := ∅;
     Reflect.getcwd := "/proj";
     Reflect.gettempdir := ["tmp"];
     Reflect.resolve := λ s, if String.eqb s "/proj" then Some ["proj"]
                             else None;
     Reflect.writable := λ _, true;
     Reflect.transcript_prompt := λ _, "" |}.

(** [{"cwd": "/proj", "session_id": "test-stale"}] *)
Definition stop_payload : dict :=
  <["cwd" := VStr "/proj"]> (<["session_id" := VStr "test-stale"]> ∅).

End Scenarios.

Module MoreScenarios.


(** The stale project reached through [HARNESS_STATE_ROOT] from a process
    started elsewhere. *)
Definition override_world : Reflect.world :=
  {| Reflect.files := Scenarios.stale_files;
     Reflect.environ := {["HARNESS_STATE_ROOT" := "/proj"]};
     Reflect.getcwd := "/elsewhere";
     Reflect.gettempdir := ["tmp"];
     Reflect.resolve := λ s, if String.eqb s "/proj" then Some ["proj"]
                             else None;
     Reflect.writable := λ _, true;
     Reflect.transcript_prompt := λ _, "" |}.

(** [{"cwd": 5, "session_id": "s"}] *)
Definition odd_payload : dict :=
  <["cwd" := VInt 5]> (<["session_id" := VStr "s"]> ∅).

(** A document file with some earlier text. *)
Definition one_document : gmap (list string) string :=
  {[ ["harness-tasks.json"; "proj"] := "old text" ]}.

(** The codec on the empty object: [json.dumps({}, indent=2)] is the text
    of two braces, and that text followed by a newline decodes to the
    empty object. *)
Definition empty_object_dumps (v : value) : string := "{}".

Definition empty_object_loads (s : string) : option value :=
  if String.eqb s ("{}" +:+ Store.newline) then Some (VDict ∅) else None.

(** A lone surrogate, [\ud83d], as the bytes [ED A0 BD], and the
    document [{"note": "\ud83d"}] with the text
    [json.dumps(_, ensure_ascii=False, indent=2)] gives for it. *)
Definition lone_surrogate : string :=
  String "237"%char (String "160"%char (String "189"%char "")).

Definition quote : string := String "034"%char "".

Definition surrogate_note : dict := <["note" := VStr lone_surrogate]> ∅.

Definition surrogate_note_dumps (v : value) : string :=
  "{" +:+ Store.newline +:+ "  " +:+ quote +:+ "note" +:+ quote +:+ ": "
  +:+ quote +:+ lone_surrogate +:+ quote +:+ Store.newline +:+ "}".

End MoreScenarios.

(* ===================================================================== *)
(** ** The reference runtime obeys the laws of the builtins *)
(* ===================================================================== *)

Module ReferenceFacts.

Import Reference.

Lemma lstrip_no_space s : no_space s → lstrip s = s.
Proof.
  destruct s as [|c s]; [done|].
  intros Hs. apply Forall_cons_1 in Hs as [Hc _]. simpl. by rewrite Hc.
Qed.

Lemma rstrip_no_space s : no_space s → rstrip s = s.
Proof.
  induction s as [|c s IH]; [done|].
  intros Hs. apply Forall_cons_1 in Hs as [Hc Hs]. simpl.
  rewrite Hc. simpl. by rewrite IH.
Qed.

Lemma strip_no_space s : no_space s → strip s = s.
Proof.
  intros Hs. unfold strip. rewrite lstrip_no_space by done.
  by apply rstrip_no_space.
Qed.

Lemma uint_no_space (u : Decimal.uint) : no_space (NilEmpty.string_of_uint u).
Proof.
  unfold no_space.
  induction u; simpl; try constructor; try reflexivity; assumption.
Qed.

Lemma decimal_no_space (n : Z) : no_space (py_str_int n).
Proof.
  unfold py_str_int. destruct (Z.to_int n) as [u|u]; simpl.
  - apply uint_no_space.
  - constructor; [reflexivity | apply uint_no_space].
Qed.

Lemma strip_decimal (n : Z) : strip (py_str_int n) = py_str_int n.
Proof. apply strip_no_space, decimal_no_space. Qed.

Lemma int_of_str_decimal (n : Z) : int_of_str (py_str_int n) = Some n.
Proof.
  unfold int_of_str. rewrite strip_decimal. unfold py_str_int.
  rewrite NilEmpty.isi.
  destruct n as [|p|p]; simpl.
  - reflexivity.
  - pose proof (DecimalPos.Unsigned.to_uint_nonnil p) as Hp.
    pose proof (DecimalZ.of_to (Z.pos p)) as Hz. simpl in Hz.
    destruct (Pos.to_uint p); [done|..]; by rewrite Hz.
  - pose proof (DecimalPos.Unsigned.to_uint_nonnil p) as Hp.
    pose proof (DecimalZ.of_to (Z.neg p)) as Hz. simpl in Hz.
    destruct (Pos.to_uint p); [done|..]; by rewrite Hz.
Qed.

(** The reference runtime: decimal [int], ASCII [strip], the timestamps of
    the examples.  The printers of containers and the JSON codec are placed
    but never run by an example. *)
#[export] Instance reference_runtime : PyRuntime := {|
  py_repr := λ _, "<repr>";
  py_int_of_str := int_of_str;
  py_strip := strip;
  fromisoformat := example_fromisoformat;
  json_loads := λ _, None;
  json_dumps_indent2 := λ _, "{}";
  Py.int_of_str_decimal := int_of_str_decimal;
  Py.strip_decimal := strip_decimal
|}.

End ReferenceFacts.

(* ===================================================================== *)
(** ** Eligibility: classification, order, selection *)
(* ===================================================================== *)

Module EligibilityFacts.

Import Common.

Lemma string_compare_trans_lt s1 s2 s3 :
  String.compare s1 s2 = Lt → String.compare s2 s3 = Lt →
  String.compare s1 s3 = Lt.
Proof.
  intros H1 H2.
  exact (@transitivity _ _ (@StrictOrder_Transitive _ _ String_as_OT.lt_strorder)
           s1 s2 s3 H1 H2).
Qed.

Lemma string_ltb_leb s1 s2 : String.ltb s1 s2 = negb (String.leb s2 s1).
Proof.
  unfold String.ltb, String.leb. rewrite (String.compare_antisym s1 s2).
  by destruct (String.compare s2 s1).
Qed.

Lemma string_leb_refl s : String.leb s s = true.
Proof. by destruct (String.leb_total s s). Qed.

Lemma string_leb_trans s1 s2 s3 :
  String.leb s1 s2 = true → String.leb s2 s3 = true → String.leb s1 s3 = true.
Proof.
  unfold String.leb. intros H1 H2.
  destruct (String.compare s1 s2) eqn:E1; [| |done].
  - apply String.compare_eq_iff in E1 as ->. done.
  - destruct (String.compare s2 s3) eqn:E2; [| |done].
    + apply String.compare_eq_iff in E2 as <-. by rewrite E1.
    + by rewrite (string_compare_trans_lt _ _ _ E1 E2).
Qed.

Lemma key_ltb_false a b : key_ltb b a = false ↔ key_le a b.
Proof.
  unfold key_ltb, key_le. rewrite string_ltb_leb.
  destruct (Z.ltb_spec b.1 a.1), (Z.eqb_spec b.1 a.1); simpl;
    try rewrite negb_false_iff; intuition (try lia; congruence).
Qed.

Lemma key_ltb_true a b : key_ltb b a = true → key_le b a.
Proof.
  unfold key_ltb, key_le. rewrite string_ltb_leb.
  destruct (Z.ltb_spec b.1 a.1), (Z.eqb_spec b.1 a.1); simpl; try done;
    try (intros _; left; lia).
  rewrite negb_true_iff. intros Hba. right. split; [done|].
  destruct (String.leb_total b.2 a.2); congruence.
Qed.

Lemma key_le_refl a : key_le a a.
Proof. right. split; [done | apply string_leb_refl]. Qed.

Lemma key_le_trans a b c : key_le a b → key_le b c → key_le a c.
Proof.
  unfold key_le. intros [?|[? ?]] [?|[? ?]]; try (left; lia).
  right. split; [lia | by eapply string_leb_trans].
Qed.

Lemma key_le_total a b : key_le a b ∨ key_le b a.
Proof.
  unfold key_le.
  destruct (Z.lt_total a.1 b.1) as [?|[?|?]]; [by left; left| |by right; left].
  destruct (String.leb_total a.2 b.2); [left|right]; right; done.
Qed.

Lemma key_le_antisym a b : key_le a b → key_le b a → a = b.
Proof.
  destruct a as [r1 s1], b as [r2 s2]. unfold key_le; simpl.
  intros [?|[-> ?]] [?|[? ?]]; try lia.
  f_equal. by apply String.leb_antisym.
Qed.

Section Facts.
Context `{PyRuntime}.

Abbreviation task_le := (λ a b : dict, key_le (key a) (key b)).

Lemma insert_by_key_perm x l : insert_by_key x l ≡ₚ x :: l.
Proof.
  induction l as [|y l IH]; simpl; [done|].
  destruct (key_ltb (key y) (key x)); [|done].
  rewrite IH. apply Permutation_swap.
Qed.

Lemma sort_by_key_perm l : sort_by_key l ≡ₚ l.
Proof.
  induction l as [|x l IH]; simpl; [done|].
  rewrite insert_by_key_perm. by rewrite IH.
Qed.

Lemma elem_of_sort_by_key t l : t ∈ sort_by_key l ↔ t ∈ l.
Proof. by rewrite sort_by_key_perm. Qed.

Lemma insert_by_key_sorted x l :
  StronglySorted task_le l → StronglySorted task_le (insert_by_key x l).
Proof.
  induction 1 as [|y l Hl IH Hy]; simpl.
  - by repeat constructor.
  - destruct (key_ltb (key y) (key x)) eqn:E.
    + constructor; [done|].
      apply Forall_forall. intros z Hz.
      apply (elem_of_Permutation_proper z _ _ (insert_by_key_perm x l)) in Hz.
      apply elem_of_cons in Hz as [->|Hz].
      * by apply key_ltb_true.
      * by eapply Forall_forall in Hy.
    + apply key_ltb_false in E.
      constructor; [by constructor|].
      constructor; [done|].
      eapply Forall_impl; [exact Hy|].
      intros z Hz. simpl in *. by eapply key_le_trans.
Qed.

Lemma sort_by_key_sorted l : StronglySorted task_le (sort_by_key l).
Proof.
  induction l as [|x l IH]; simpl; [constructor|].
  by apply insert_by_key_sorted.
Qed.

Lemma sort_by_key_id l : StronglySorted task_le l → sort_by_key l = l.
Proof.
  induction 1 as [|x l Hl IH Hx]; simpl; [done|].
  rewrite IH. destruct l as [|y l]; [done|]. simpl.
  apply Forall_cons_1 in Hx as [Hxy _].
  apply key_ltb_false in Hxy. by rewrite Hxy.
Qed.

(** Tasks with equal keys keep their input order: the sort is stable. *)
Lemma insert_by_key_stable k x l :
  StronglySorted task_le l →
  filter (λ t, key t = k) (insert_by_key x l)
  = filter (λ t, key t = k) (x :: l).
Proof.
  induction 1 as [|y l Hl IH Hy]; simpl; [done|].
  destruct (key_ltb (key y) (key x)) eqn:E; [|done].
  rewrite !filter_cons. rewrite IH. rewrite !filter_cons.
  destruct (decide (key y = k)) as [Hyk|]; [|done].
  destruct (decide (key x = k)) as [Hxk|]; [|done].
  exfalso. rewrite Hyk, Hxk in E.
  assert (key_ltb k k = false) as Hkk by (apply key_ltb_false, key_le_refl).
  congruence.
Qed.

Lemma sort_by_key_stable k l :
  filter (λ t, key t = k) (sort_by_key l) = filter (λ t, key t = k) l.
Proof.
  induction l as [|x l IH]; simpl; [done|].
  rewrite insert_by_key_stable by apply sort_by_key_sorted.
  rewrite !filter_cons. by rewrite IH.
Qed.

End Facts.

End EligibilityFacts.

Module FieldFacts.

Import Common.

Section Facts.
Context `{PyRuntime}.

(** The helpers of the hooks read the fields as the vocabulary does. *)
Lemma task_status_of (t : dict) : task_status t = status_of t.
Proof. unfold task_status, status_of, dict_get. by destruct (t !! "status"). Qed.

Lemma task_id_of (t : dict) : task_id t = id_of t.
Proof. unfold task_id, id_of, dict_get. by destruct (t !! "id"). Qed.

Lemma task_attempts_of (t : dict) : task_attempts t = attempts_of t.
Proof.
  unfold task_attempts, attempts_of, dict_get, py_or.
  destruct (t !! "attempts") as [[|[]|z|[n d| |]|s|l|d]|]; simpl; try done.
  - by destruct (Z.eqb_spec z 0) as [->|]; simpl.
  - destruct (Z.eqb_spec n 0) as [->|]; simpl; [|done].
    by rewrite Z.quot_0_l.
  - by destruct (String.eqb s ""); simpl.
  - by case_bool_decide.
  - by case_bool_decide.
Qed.

Lemma task_max_attempts_of (t : dict) :
  task_max_attempts t = max_attempts_of t.
Proof.
  unfold task_max_attempts, max_attempts_of, dict_get.
  by destruct (t !! "max_attempts") as [[|[]|z|[n d| |]|s|l|d]|].
Qed.

Lemma priority_rank_of (t : dict) :
  priority_rank (dict_get t "priority" VNone) = rank_of t.
Proof.
  unfold priority_rank, rank_of, rank_of_text, dict_get, py_or.
  destruct (t !! "priority") as [v|]; simpl; [|done].
  destruct v as [| | | |s| |]; try by destruct (truthy _).
  simpl. by destruct (String.eqb_spec s "") as [->|].
Qed.

Lemma key_order_key (t : dict) : key t = order_key t.
Proof. unfold key, order_key. by rewrite priority_rank_of, task_id_of. Qed.

Lemma declared_deps_of (t : dict) : declared_deps t = dependencies_of t.
Proof.
  unfold declared_deps, dependencies_of, dict_get, py_or.
  destruct (t !! "depends_on") as [v|]; simpl; [|done].
  destruct v as [| | | | |l|]; try by destruct (truthy _).
  by destruct l.
Qed.

Lemma deps_met_completed (tasks : list dict) (t : dict) :
  deps_met tasks t ↔ dependencies_completed tasks t.
Proof.
  unfold deps_met, dependencies_completed. rewrite declared_deps_of.
  by setoid_rewrite task_status_of; setoid_rewrite task_id_of.
Qed.

End Facts.

End FieldFacts.

Module Eligibility.

Import Common EligibilityFacts FieldFacts.

Section Claims.
Context `{PyRuntime}.

Lemma elem_of_completed_ids (tasks : list dict) (s : string) :
  s ∈ completed_ids tasks
  ↔ ∃ c, c ∈ tasks ∧ task_status c = "completed" ∧ task_id c = s.
Proof.
  unfold completed_ids. rewrite elem_of_list_to_set, list_elem_of_fmap.
  split.
  - intros (c & -> & Hc). apply list_elem_of_filter in Hc as [? ?]. eauto.
  - intros (c & Hc & Hs & <-). exists c. split; [done|].
    by apply list_elem_of_filter.
Qed.

Lemma deps_completed_met (tasks : list dict) (t : dict) :
  deps_completed t (completed_ids tasks) = true ↔ deps_met tasks t.
Proof.
  unfold deps_completed, deps_met, declared_deps.
  destruct (py_or (dict_get t "depends_on" VNone) (VList [])) as
    [| | | | |deps|]; try (split; [done | by intros (? & ? & _)]).
  rewrite forallb_forall. split.
  - intros Hall. exists deps. split; [done|]. intros d Hd.
    apply list_elem_of_In, Hall, bool_decide_eq_true in Hd.
    by apply elem_of_completed_ids.
  - intros (deps' & [= <-] & Hall) d Hd.
    apply bool_decide_eq_true, elem_of_completed_ids, Hall.
    by apply list_elem_of_In.
Qed.

Lemma elem_of_pending_ready (tasks : list dict) (t : dict) :
  t ∈ (eligible_tasks tasks).1
  ↔ t ∈ tasks ∧ task_status t = "pending" ∧ deps_met tasks t.
Proof.
  unfold eligible_tasks; simpl.
  rewrite elem_of_sort_by_key, list_elem_of_filter.
  rewrite deps_completed_met. tauto.
Qed.

Lemma elem_of_retry_ready (tasks : list dict) (t : dict) :
  t ∈ (eligible_tasks tasks).2
  ↔ t ∈ tasks ∧ task_status t = "failed"
    ∧ task_attempts t < task_max_attempts t ∧ deps_met tasks t.
Proof.
  unfold eligible_tasks; simpl.
  rewrite elem_of_sort_by_key, list_elem_of_filter.
  rewrite deps_completed_met. tauto.
Qed.

Lemma sorted_order_key (l : list dict) :
  StronglySorted (λ a b, key_le (key a) (key b)) l →
  StronglySorted (λ a b, key_le (order_key a) (order_key b)) l.
Proof.
  induction 1 as [|x l Hs IH Hall]; constructor; [done|].
  eapply Forall_impl; [done|]. intros b. by rewrite !key_order_key.
Qed.

(** In a list sorted by (rank, id) a task whose pair is strictly smaller
    stands before the other. *)
Lemma sorted_lookup (l : list dict) (i j : nat) (a b : dict) :
  StronglySorted (λ a b, key_le (key a) (key b)) l → l !! i = Some a → l !! j = Some b →
  (i < j)%nat → key_le (key a) (key b).
Proof.
  intros Hs. revert i j. induction Hs as [|x l Hs IH Hall]; intros i j;
    [done|].
  destruct i as [|i], j as [|j]; simpl; try lia.
  - intros [= ->] Hb _. eapply Forall_forall in Hall; [done|].
    by eapply list_elem_of_lookup_2.
  - intros Ha Hb Hlt. apply (IH i j); [done..|lia].
Qed.

Lemma sorted_positions (l : list dict) (i j : nat) (a b : dict) :
  StronglySorted (λ a b, key_le (key a) (key b)) l → l !! i = Some a → l !! j = Some b →
  rank_of a < rank_of b
  ∨ (rank_of a = rank_of b ∧ String.ltb (id_of a) (id_of b) = true) →
  (i < j)%nat.
Proof.
  intros Hs Ha Hb Hlt.
  destruct (decide (i < j)%nat) as [|Hge]; [done|]. exfalso.
  assert (key_le (key b) (key a)) as Hle.
  { destruct (decide (i = j)) as [->|Hne].
    - rewrite Ha in Hb. injection Hb as ->. apply key_le_refl.
    - apply (sorted_lookup l j i); [done..|lia]. }
  rewrite !key_order_key in Hle. unfold key_le, order_key in Hle.
  simpl in Hle. rewrite string_ltb_leb in Hlt.
  destruct Hle as [?|[? Hleb]], Hlt as [?|[? Hltb]]; try lia.
  by rewrite Hleb in Hltb.
Qed.

(** C1. [eligible_tasks] classifies as the eligibility invariant says:
    the first list holds exactly the tasks of the input whose status is
    [pending] and whose dependencies are all ids of [completed] tasks of
    the input; the second holds exactly the tasks whose status is
    [failed], whose attempts are below [max_attempts] (3 when the field
    is absent) and whose dependencies are all completed.  Both lists are
    rearrangements of the filtered input, so nothing is duplicated or
    dropped, and a task with a dependency that no completed task carries
    as its id is in neither list.  The same holds read from the fields
    of the task documents alone: [status_of], [attempts_of],
    [max_attempts_of] and [dependencies_completed] look the fields up
    without the helpers of the hooks, which agree with them; with
    [attempts] 3 of [max_attempts] 5 a failed task is retry-ready, with
    1 of 1 it is not. *)
Theorem eligible_classifies (tasks : list dict) (t : dict) :
  (t ∈ (eligible_tasks tasks).1
   ↔ t ∈ tasks ∧ task_status t = "pending" ∧ deps_met tasks t)
  ∧ (t ∈ (eligible_tasks tasks).2
     ↔ t ∈ tasks ∧ task_status t = "failed"
       ∧ task_attempts t < task_max_attempts t ∧ deps_met tasks t)
  ∧ (t !! "max_attempts" = None → task_max_attempts t = 3)
  ∧ ((eligible_tasks tasks).1
     ≡ₚ filter (λ t, task_status t = "pending"
                     ∧ deps_completed t (completed_ids tasks) = true) tasks)
  ∧ ((eligible_tasks tasks).2
     ≡ₚ filter (λ t, task_status t = "failed"
                     ∧ task_attempts t < task_max_attempts t
                     ∧ deps_completed t (completed_ids tasks) = true) tasks)
  ∧ (∀ deps d, declared_deps t = Some deps → d ∈ deps →
       (∀ c, c ∈ tasks → task_status c = "completed" →
             task_id c ≠ py_str d) →
       (t ∉ (eligible_tasks tasks).1) ∧ (t ∉ (eligible_tasks tasks).2))
  ∧ (t ∈ (eligible_tasks tasks).1
     ↔ t ∈ tasks ∧ status_of t = "pending"
       ∧ dependencies_completed tasks t)
  ∧ (t ∈ (eligible_tasks tasks).2
     ↔ t ∈ tasks ∧ status_of t = "failed"
       ∧ attempts_of t < max_attempts_of t
       ∧ dependencies_completed tasks t)
  ∧ (∀ a m, t !! "attempts" = Some (VInt a) →
            t !! "max_attempts" = Some (VInt m) →
            task_attempts t = a ∧ task_max_attempts t = m
            ∧ (t ∈ (eligible_tasks tasks).2
               ↔ t ∈ tasks ∧ status_of t = "failed" ∧ a < m
                 ∧ dependencies_completed tasks t))
  ∧ (t !! "attempts" = None → task_attempts t = 0)
  ∧ (∀ deps d, t !! "depends_on" = Some (VList deps) → d ∈ deps →
       (∀ c, c ∈ tasks → status_of c = "completed" → id_of c ≠ py_str d) →
       (t ∉ (eligible_tasks tasks).1) ∧ (t ∉ (eligible_tasks tasks).2))
  ∧ eligible_tasks [Scenarios.three_of_five; Scenarios.one_of_one]
    = ([], [Scenarios.three_of_five]).
Proof.
  pose proof (elem_of_pending_ready tasks t) as Hfst.
  pose proof (elem_of_retry_ready tasks t) as Hsnd.
  assert (Hfst' : t ∈ (eligible_tasks tasks).1
            ↔ t ∈ tasks ∧ status_of t = "pending"
              ∧ dependencies_completed tasks t).
  { by rewrite Hfst, task_status_of, deps_met_completed. }
  assert (Hsnd' : t ∈ (eligible_tasks tasks).2
            ↔ t ∈ tasks ∧ status_of t = "failed"
              ∧ attempts_of t < max_attempts_of t
              ∧ dependencies_completed tasks t).
  { by rewrite Hsnd, task_status_of, task_attempts_of,
      task_max_attempts_of, deps_met_completed. }
  split_and!; try done.
  - intros Hnone. unfold task_max_attempts, dict_get. by rewrite Hnone.
  - apply sort_by_key_perm.
  - apply sort_by_key_perm.
  - intros deps d Hdeps Hd Hunmet.
    assert (¬ deps_met tasks t) as Hnot.
    { intros (deps' & Hdeps' & Hall).
      rewrite Hdeps in Hdeps'. injection Hdeps' as <-.
      destruct (Hall d Hd) as (c & Hc & Hs & Hid).
      by apply (Hunmet c). }
    rewrite Hfst, Hsnd. tauto.
  - intros a m Ha Hm.
    assert (attempts_of t = a) as Ea by (unfold attempts_of; by rewrite Ha).
    assert (max_attempts_of t = m) as Em
      by (unfold max_attempts_of; by rewrite Hm).
    rewrite task_attempts_of, task_max_attempts_of, Hsnd'.
    by rewrite Ea, Em.
  - intros Hnone. rewrite task_attempts_of. unfold attempts_of.
    by rewrite Hnone.
  - intros deps d Hdeps Hd Hunmet.
    assert (¬ dependencies_completed tasks t) as Hnot.
    { intros (deps' & Hdeps' & Hall). unfold dependencies_of in Hdeps'.
      rewrite Hdeps in Hdeps'. injection Hdeps' as <-.
      destruct (Hall d Hd) as (c & Hc & Hs & Hid).
      by apply (Hunmet c). }
    rewrite Hfst', Hsnd'. tauto.
Qed.

(** C2. [pick_next] returns the head of the pending-ready list whenever
    that list is non-empty, whatever the retry-ready list holds; the head
    of the retry-ready list only when the pending-ready list is empty;
    and nothing when both are empty.  Applied to what [eligible_tasks]
    returns, it therefore yields a pending task whenever one is ready.
    For [t1] failed with 1 of 3 attempts and [t2] pending on [t1], the
    ready lists are [[]] and [[t1]] and the next task is [t1]. *)
Theorem pick_next_prefers_pending :
  (∀ (t : dict) pending retry, pick_next (t :: pending) retry = Some t)
  ∧ (∀ (t : dict) retry, pick_next [] (t :: retry) = Some t)
  ∧ pick_next [] [] = None
  ∧ (∀ tasks t, (eligible_tasks tasks).1 ≠ [] →
        pick_next (eligible_tasks tasks).1 (eligible_tasks tasks).2 = Some t →
        t ∈ tasks ∧ task_status t = "pending")
  ∧ eligible_tasks [Scenarios.retry_t1; Scenarios.blocked_t2]
    = ([], [Scenarios.retry_t1])
  ∧ pick_next (eligible_tasks [Scenarios.retry_t1; Scenarios.blocked_t2]).1
              (eligible_tasks [Scenarios.retry_t1; Scenarios.blocked_t2]).2
    = Some Scenarios.retry_t1.
Proof.
  assert (eligible_tasks [Scenarios.retry_t1; Scenarios.blocked_t2]
          = ([], [Scenarios.retry_t1])) as Hscenario by (vm_compute; done).
  split_and!; try done.
  - intros tasks t Hne Hpick.
    destruct (eligible_tasks tasks).1 as [|p pending] eqn:E; [done|].
    simpl in Hpick. injection Hpick as <-.
    assert (p ∈ (eligible_tasks tasks).1) as Hp by (rewrite E; left).
    apply elem_of_pending_ready in Hp. tauto.
Qed.

(** The ordering scenario: [t1] with priority [P2] before [t2] with
    priority [P0] in the document, [t2] before [t1] in the ready list. *)
Lemma priority_scenario :
  (eligible_tasks [Scenarios.low_t1; Scenarios.high_t2]).1
  = [Scenarios.high_t2; Scenarios.low_t1].
Proof. vm_compute. reflexivity. Qed.

(** C4. Each list returned by [eligible_tasks] ascends in the pair
    (priority rank, id): [P0] ranks 0, [P1] ranks 1, [P2] ranks 2 and any
    other or missing priority ranks 9, after all three; the id breaks
    ties within a rank.  The order on keys is total and antisymmetric, so
    only tasks with the same rank and id can swap, and those keep their
    input order; sorting a returned list again leaves it as it is.  The
    pair is the one read from the fields [priority] and [id] of the task
    ([order_key]): in either list a task of smaller rank, or of the same
    rank and smaller id, stands at an earlier position, so that [t2]
    with priority [P0] comes out before [t1] with priority [P2]. *)
Theorem eligible_sorted (tasks : list dict) :
  StronglySorted (λ a b, key_le (key a) (key b)) (eligible_tasks tasks).1
  ∧ StronglySorted (λ a b, key_le (key a) (key b)) (eligible_tasks tasks).2
  ∧ priority_rank (VStr "P0") = 0
  ∧ priority_rank (VStr "P1") = 1
  ∧ priority_rank (VStr "P2") = 2
  ∧ priority_rank VNone = 9
  ∧ (∀ v, py_str (py_or v (VStr "")) ∉ ["P0"; "P1"; "P2"] →
          priority_rank v = 9)
  ∧ (∀ a b, key_le a b ∨ key_le b a)
  ∧ (∀ a b, key_le a b → key_le b a → a = b)
  ∧ (∀ k, filter (λ t, key t = k) (eligible_tasks tasks).1
          = filter (λ t, key t = k)
              (filter (λ t, task_status t = "pending"
                            ∧ deps_completed t (completed_ids tasks) = true)
                      tasks))
  ∧ (∀ k, filter (λ t, key t = k) (eligible_tasks tasks).2
          = filter (λ t, key t = k)
              (filter (λ t, task_status t = "failed"
                            ∧ task_attempts t < task_max_attempts t
                            ∧ deps_completed t (completed_ids tasks) = true)
                      tasks))
  ∧ sort_by_key (eligible_tasks tasks).1 = (eligible_tasks tasks).1
  ∧ sort_by_key (eligible_tasks tasks).2 = (eligible_tasks tasks).2
  ∧ (∀ t, key t = (rank_of t, id_of t))
  ∧ StronglySorted (λ a b, key_le (order_key a) (order_key b))
      (eligible_tasks tasks).1
  ∧ StronglySorted (λ a b, key_le (order_key a) (order_key b))
      (eligible_tasks tasks).2
  ∧ (∀ i j a b,
       (eligible_tasks tasks).1 !! i = Some a →
       (eligible_tasks tasks).1 !! j = Some b →
       rank_of a < rank_of b
       ∨ (rank_of a = rank_of b ∧ String.ltb (id_of a) (id_of b) = true) →
       (i < j)%nat)
  ∧ (∀ i j a b,
       (eligible_tasks tasks).2 !! i = Some a →
       (eligible_tasks tasks).2 !! j = Some b →
       rank_of a < rank_of b
       ∨ (rank_of a = rank_of b ∧ String.ltb (id_of a) (id_of b) = true) →
       (i < j)%nat)
  ∧ (∀ t, (t !! "priority" = Some (VStr "P0") → (key t).1 = 0)
          ∧ (t !! "priority" = Some (VStr "P1") → (key t).1 = 1)
          ∧ (t !! "priority" = Some (VStr "P2") → (key t).1 = 2)
          ∧ (t !! "priority" = None → (key t).1 = 9)
          ∧ (∀ s, t !! "priority" = Some (VStr s) →
                  s ∉ ["P0"; "P1"; "P2"] → (key t).1 = 9)
          ∧ (∀ s, t !! "id" = Some (VStr s) → (key t).2 = s))
  ∧ (eligible_tasks [Scenarios.low_t1; Scenarios.high_t2]).1
    = [Scenarios.high_t2; Scenarios.low_t1].
Proof.
  assert (Hsorted : ∀ l, StronglySorted
            (λ a b, key_le (order_key a) (order_key b)) (sort_by_key l)).
  { intros l. apply sorted_order_key, sort_by_key_sorted. }
  unfold eligible_tasks; cbn [fst snd].
  split_and!; try done.
  - apply sort_by_key_sorted.
  - apply sort_by_key_sorted.
  - intros v Hv. unfold priority_rank.
    destruct (String.eqb_spec (py_str (py_or v (VStr ""))) "P0") as [E|_];
      [rewrite E in Hv; set_solver|].
    destruct (String.eqb_spec (py_str (py_or v (VStr ""))) "P1") as [E|_];
      [rewrite E in Hv; set_solver|].
    destruct (String.eqb_spec (py_str (py_or v (VStr ""))) "P2") as [E|_];
      [rewrite E in Hv; set_solver|].
    done.
  - apply key_le_total.
  - apply key_le_antisym.
  - intros k. apply sort_by_key_stable.
  - intros k. apply sort_by_key_stable.
  - apply sort_by_key_id, sort_by_key_sorted.
  - apply sort_by_key_id, sort_by_key_sorted.
  - apply key_order_key.
  - intros i j a b. apply sorted_positions, sort_by_key_sorted.
  - intros i j a b. apply sorted_positions, sort_by_key_sorted.
  - intros t. rewrite key_order_key. unfold order_key, rank_of, id_of; simpl.
    split_and!.
    + by intros ->.
    + by intros ->.
    + by intros ->.
    + by intros ->.
    + intros s -> Hs. unfold rank_of_text.
      repeat (apply not_elem_of_cons in Hs as [? Hs]).
      by rewrite !(proj2 (String.eqb_neq _ _)).
    + by intros s ->.
Qed.

End Claims.

End Eligibility.

(* ===================================================================== *)
(** ** Lease reaping *)
(* ===================================================================== *)

Module LeaseFacts.

Import Common FieldFacts.

Lemma utc_text_substring (s : string) (n : nat) :
  String.length s = S n →
  utc_text s
  = if String.eqb (String.substring n 1 s) "Z"
    then String.substring 0 n s +:+ "+00:00" else s.
Proof.
  revert n. induction s as [|c s IH]; intros n Hlen; [done|].
  destruct n as [|n].
  - destruct s; [|done]. cbn. by destruct (Ascii.eqb c "Z").
  - destruct s as [|d s]; [done|].
    assert (String.length (String d s) = S n) as Hlen'
      by (simpl in Hlen |- *; lia).
    specialize (IH n Hlen').
    change (utc_text (String c (String d s)))
      with (String c (utc_text (String d s))).
    change (String.substring (S n) 1 (String c (String d s)))
      with (String.substring n 1 (String d s)).
    change (String.substring 0 (S n) (String c (String d s)))
      with (String c (String.substring 0 n (String d s))).
    rewrite IH. by destruct (String.eqb _ "Z").
Qed.

Section Facts.
Context `{PyRuntime}.

Lemma ends_with_Z_utc_text (s : string) :
  match ends_with_Z s with
  | Some body => body +:+ "+00:00"
  | None => s
  end = utc_text s.
Proof.
  unfold ends_with_Z. destruct (String.length s) as [|n] eqn:Hlen.
  - by destruct s.
  - rewrite (utc_text_substring s n Hlen). by destruct (String.eqb _ "Z").
Qed.

(** [parse_iso] on the lease field, by the [datetime] the field names. *)
Lemma parse_iso_lease (t : dict) :
  parse_iso (dict_get t "lease_expires_at" VNone)
  = match lease_datetime t with
    | None => Returns None
    | Some dt =>
        if decide (in_datetime_range (utc_instant dt))
        then Returns (Some (utc_instant dt))
        else Raises OverflowError
    end.
Proof.
  unfold parse_iso, lease_datetime, dict_get.
  destruct (t !! "lease_expires_at") as [[| | | |raw| |]|]; simpl; try done.
  destruct (String.eqb (py_strip raw) ""); [done|].
  rewrite ends_with_Z_utc_text.
  destruct (fromisoformat _) as [dt|]; [|done].
  unfold astimezone_utc, in_datetime_range, utc_instant.
  destruct (Z.leb_spec DATETIME_MIN (dt_wall dt - default 0 (dt_offset dt)));
    destruct (Z.leb_spec (dt_wall dt - default 0 (dt_offset dt)) DATETIME_MAX);
    simpl; case_decide; try done; lia.
Qed.

Lemma lease_due_not_overflows (t : dict) (now : Z) :
  lease_due t now → ¬ lease_overflows t.
Proof.
  intros (_ & dt & Hdt & Hr & _) (_ & dt' & Hdt' & Hr').
  rewrite Hdt in Hdt'. by injection Hdt' as <-.
Qed.


(** One turn of the loop, by the lease of the task: due, out of range,
    or neither. *)
Lemma reap_loop_cons t rest now changed :
  (lease_due t now
   ∧ reap_loop (t :: rest) now changed
     = (expire_lease t :: (reap_loop rest now true).1,
        (reap_loop rest now true).2))
  ∨ (lease_overflows t
     ∧ reap_loop (t :: rest) now changed = (t :: rest, Raises OverflowError))
  ∨ (¬ lease_due t now ∧ ¬ lease_overflows t
     ∧ reap_loop (t :: rest) now changed
       = (t :: (reap_loop rest now changed).1,
          (reap_loop rest now changed).2)).
Proof.
  unfold lease_due, lease_overflows. cbn [reap_loop].
  rewrite task_status_of, parse_iso_lease.
  destruct (String.eqb_spec (status_of t) "in_progress") as [Hs|Hs]; simpl.
  - destruct (lease_datetime t) as [dt|].
    + case_decide as Hr.
      * destruct (Z.ltb_spec now (utc_instant dt)).
        -- right. right. destruct (reap_loop rest now changed).
           split_and!; [| |done].
           ++ intros (_ & dt' & [= <-] & _ & ?). lia.
           ++ by intros (_ & dt' & [= <-] & ?).
        -- left. destruct (reap_loop rest now true).
           split; [|done]. split; [done|]. exists dt. split_and!; [done..|lia].
      * right. left. split; [|done]. split; [done|]. by exists dt.
    + right. right. destruct (reap_loop rest now changed).
      split_and!; [| |done].
      * by intros (_ & dt' & ? & _).
      * by intros (_ & dt' & ? & _).
  - right. right. destruct (reap_loop rest now changed).
    split_and!; [| |done]; by intros [? _].
Qed.


Lemma lease_overflows_dec (t : dict) : lease_overflows t ∨ ¬ lease_overflows t.
Proof.
  destruct (reap_loop_cons t [] 0 false) as [[Hd _]|[[? _]|(_ & ? & _)]]; auto.
  right. by apply lease_due_not_overflows in Hd.
Qed.

Lemma reap_loop_length tasks now changed :
  length (reap_loop tasks now changed).1 = length tasks.
Proof.
  revert changed. induction tasks as [|t rest IH]; intros changed; [done|].
  destruct (reap_loop_cons t rest now changed)
    as [[_ ->]|[[_ ->]|(_ & _ & ->)]]; simpl; by rewrite ?IH.
Qed.


(** Every position holds the task as it was, or the task with its lease
    expired when that lease was due. *)
Lemma reap_loop_lookup_cases tasks now changed i t :
  tasks !! i = Some t →
  (reap_loop tasks now changed).1 !! i = Some t
  ∨ (lease_due t now
     ∧ (reap_loop tasks now changed).1 !! i = Some (expire_lease t)).
Proof.
  revert changed i. induction tasks as [|u rest IH]; intros changed i Hi;
    [done|].
  destruct (reap_loop_cons u rest now changed)
    as [[Hd ->]|[[Ho ->]|(Hd & Ho & ->)]]; simpl.
  - destruct i as [|i]; simpl in *; [|by apply IH].
    injection Hi as ->. by right.
  - by left.
  - destruct i as [|i]; simpl in *; [|by apply IH].
    by left.
Qed.

(** With no lease out of range before it and none at it, a position is
    dealt with by the rule. *)
Lemma reap_loop_lookup tasks now changed i t :
  tasks !! i = Some t →
  Forall (λ u, ¬ lease_overflows u) (take i tasks) →
  (lease_due t now →
   (reap_loop tasks now changed).1 !! i = Some (expire_lease t))
  ∧ (¬ lease_due t now → (reap_loop tasks now changed).1 !! i = Some t).
Proof.
  revert changed i. induction tasks as [|u rest IH]; intros changed i Hi Hall;
    [done|].
  destruct i as [|i]; simpl in Hi, Hall.
  - injection Hi as ->.
    destruct (reap_loop_cons t rest now changed)
      as [[Hd ->]|[[Ho ->]|(Hd & Ho & ->)]]; simpl; split; try done.
    intros Hd. by apply lease_due_not_overflows in Hd.
  - apply Forall_cons in Hall as [Hu Hall].
    destruct (reap_loop_cons u rest now changed)
      as [[Hd ->]|[[Ho ->]|(Hd & Ho & ->)]]; simpl; [by apply IH|done|].
    by apply IH.
Qed.

(** From a task whose lease is out of range on, the list is as it
    was. *)
Lemma reap_loop_beyond before t after now changed i u :
  lease_overflows t → (length before ≤ i)%nat →
  (before ++ t :: after) !! i = Some u →
  (reap_loop (before ++ t :: after) now changed).1 !! i = Some u.
Proof.
  intros Ho. revert changed i.
  induction before as [|b before IH]; intros changed i Hle Hi.
  - cbn [app] in Hi |- *.
    destruct (reap_loop_cons t after now changed)
      as [[Hd _]|[[_ ->]|(_ & ? & _)]]; [|done..].
    by apply lease_due_not_overflows in Hd.
  - destruct i as [|i]; simpl in Hle; [lia|]. simpl in Hi.
    change ((b :: before) ++ t :: after) with (b :: (before ++ t :: after)).
    destruct (reap_loop_cons b (before ++ t :: after) now changed)
      as [[Hd ->]|[[Ho' ->]|(Hd & Ho' & ->)]]; simpl; [|done|];
      apply IH; [lia|done|lia|done].
Qed.

(** How the loop ends: it raises exactly when some lease is out of
    range, and the flag it returns otherwise tells whether some lease was
    due. *)
Lemma reap_loop_raises tasks now changed :
  (reap_loop tasks now changed).2 = Raises OverflowError
  ↔ ∃ t, t ∈ tasks ∧ lease_overflows t.
Proof.
  revert changed. induction tasks as [|t rest IH]; intros changed.
  - simpl. split; [done|]. intros (? & Hin & _). by apply elem_of_nil in Hin.
  - destruct (reap_loop_cons t rest now changed)
      as [[Hd ->]|[[Ho ->]|(Hd & Ho & ->)]]; simpl.
    + rewrite IH. split.
      * intros (u & ? & ?). exists u. split; [by right|done].
      * intros (u & Hu & Hou). apply elem_of_cons in Hu as [->|Hu].
        -- by apply lease_due_not_overflows in Hd.
        -- by exists u.
    + split; [|done]. intros _. exists t. split; [left|done].
    + rewrite IH. split.
      * intros (u & ? & ?). exists u. split; [by right|done].
      * intros (u & Hu & Hou). apply elem_of_cons in Hu as [->|Hu]; [done|].
        by exists u.
Qed.

Lemma reap_loop_returns tasks now changed :
  Forall (λ t, ¬ lease_overflows t) tasks →
  ∃ changed', (reap_loop tasks now changed).2 = Returns changed'
    ∧ (changed' = true
       ↔ changed = true ∨ ∃ t, t ∈ tasks ∧ lease_due t now).
Proof.
  intros Hall. revert changed.
  induction Hall as [|t rest Ht Hrest IH]; intros changed.
  - exists changed. split; [done|]. split; [by left|].
    intros [?|(? & Hin & _)]; [done|]. by apply elem_of_nil in Hin.
  - destruct (reap_loop_cons t rest now changed)
      as [[Hd ->]|[[Ho _]|(Hd & Ho & ->)]]; simpl; [|done|].
    + destruct (IH true) as (c & -> & Hc). exists c. split; [done|].
      rewrite Hc. split; [|by left]. intros _. right.
      exists t. split; [left|done].
    + destruct (IH changed) as (c & -> & Hc). exists c. split; [done|].
      rewrite Hc. split.
      * intros [?|(u & Hu & ?)]; [by left|].
        right. exists u. split; [by right|done].
      * intros [?|(u & Hu & Hdu)]; [by left|].
        apply elem_of_cons in Hu as [->|Hu]; [done|].
        right. by exists u.
Qed.


(** The task with its lease expired, field by field. *)
Lemma expire_lease_other (t : dict) (k : string) :
  k ∉ ["attempts"; "error_log"; "status"; "claimed_by";
       "lease_expires_at"; "claimed_at"] →
  expire_lease t !! k = t !! k.
Proof.
  intros Hk. repeat (apply not_elem_of_cons in Hk as [? Hk]).
  unfold expire_lease.
  by destruct (_ !! "error_log") as [[]|]; simplify_map_eq.
Qed.

Lemma expire_lease_reaped (t : dict) : reaped t (expire_lease t).
Proof.
  unfold reaped. split_and!.
  - unfold expire_lease.
    by destruct (_ !! "error_log") as [[]|]; simplify_map_eq.
  - rewrite <- task_attempts_of. unfold expire_lease.
    by destruct (_ !! "error_log") as [[]|]; simplify_map_eq.
  - unfold expire_lease, prior_log, timeout_message, holder_text, dict_get.
    rewrite !lookup_insert_ne by done.
    by destruct (t !! "error_log") as [[]|], (t !! "claimed_by");
      simplify_map_eq.
  - unfold expire_lease.
    by destruct (_ !! "error_log") as [[]|]; simplify_map_eq.
  - unfold expire_lease.
    by destruct (_ !! "error_log") as [[]|]; simplify_map_eq.
  - unfold expire_lease.
    by destruct (_ !! "error_log") as [[]|]; simplify_map_eq.
  - apply expire_lease_other.
Qed.

(** The fields determine the reaped task. *)
Lemma reaped_unique (t t' : dict) : reaped t t' → t' = expire_lease t.
Proof.
  intros Hr. pose proof (expire_lease_reaped t) as He.
  destruct Hr as (H1 & H2 & H3 & H4 & H5 & H6 & H7).
  destruct He as (E1 & E2 & E3 & E4 & E5 & E6 & E7).
  apply map_eq. intros k.
  destruct (decide (k ∈ ["attempts"; "error_log"; "status"; "claimed_by";
                          "lease_expires_at"; "claimed_at"])) as [Hin|Hout].
  - repeat (apply elem_of_cons in Hin as [->|Hin]; [congruence|]).
    by apply elem_of_nil in Hin.
  - rewrite H7, E7; done.
Qed.

Lemma expire_lease_status t : task_status (expire_lease t) = "failed".
Proof.
  unfold task_status, dict_get, expire_lease.
  by destruct (_ !! "error_log") as [[]|]; simplify_map_eq.
Qed.

Lemma expire_lease_not_due t now : ¬ lease_due (expire_lease t) now.
Proof.
  intros [Hs _]. by rewrite <- task_status_of, expire_lease_status in Hs.
Qed.

Lemma expire_lease_not_overflows t : ¬ lease_overflows (expire_lease t).
Proof.
  intros [Hs _]. by rewrite <- task_status_of, expire_lease_status in Hs.
Qed.

(** Out-of-range leases are neither added nor removed by the loop. *)
Lemma reap_loop_overflows tasks now changed :
  (∃ t, t ∈ (reap_loop tasks now changed).1 ∧ lease_overflows t)
  ↔ ∃ t, t ∈ tasks ∧ lease_overflows t.
Proof.
  split.
  - intros (t' & Hin & Ho). apply list_elem_of_lookup in Hin as [i Hi].
    assert (is_Some (tasks !! i)) as [t Ht].
    { apply lookup_lt_is_Some. rewrite <- (reap_loop_length tasks now changed).
      by eapply lookup_lt_Some. }
    destruct (reap_loop_lookup_cases tasks now changed i t Ht)
      as [Hsame|[_ Hexp]].
    + rewrite Hsame in Hi. injection Hi as <-.
      exists t. split; [by eapply list_elem_of_lookup_2|done].
    + rewrite Hexp in Hi. injection Hi as <-.
      by apply expire_lease_not_overflows in Ho.
  - intros (t & Hin & Ho). apply list_elem_of_lookup in Hin as [i Hi].
    destruct (reap_loop_lookup_cases tasks now changed i t Hi)
      as [Hsame|[Hd _]].
    + exists t. split; [by eapply list_elem_of_lookup_2|done].
    + by apply lease_due_not_overflows in Hd.
Qed.

(** A second pass at the same time finds the list as the first left it:
    it changes nothing, and it ends as the first did, the flag aside. *)
Lemma reap_loop_again tasks now changed changed' :
  reap_loop (reap_loop tasks now changed).1 now changed'
  = ((reap_loop tasks now changed).1,
     match (reap_loop tasks now changed).2 with
     | Returns _ => Returns changed'
     | Raises e => Raises e
     end).
Proof.
  revert changed changed'.
  induction tasks as [|t rest IH]; intros changed changed'; [done|].
  destruct (reap_loop_cons t rest now changed)
    as [[Hd ->]|[[Ho ->]|(Hd & Ho & ->)]]; cbn [fst snd].
  - destruct (reap_loop_cons (expire_lease t) (reap_loop rest now true).1
                now changed') as [[Hd' _]|[[Ho' _]|(_ & _ & ->)]].
    + by apply expire_lease_not_due in Hd'.
    + by apply expire_lease_not_overflows in Ho'.
    + by rewrite IH.
  - destruct (reap_loop_cons t rest now changed')
      as [[Hd' _]|[[_ ->]|(_ & ? & _)]]; [|done..].
    by apply lease_due_not_overflows in Hd'.
  - destruct (reap_loop_cons t (reap_loop rest now changed).1 now changed')
      as [[Hd' _]|[[Ho' _]|(_ & _ & ->)]]; [done..|].
    by rewrite IH.
Qed.


End Facts.

End LeaseFacts.

Module Leases.

Import Common FieldFacts LeaseFacts.

Section Claims.
Context `{PyRuntime}.

(** A position the loop reached, by the rule of reaping. *)
Lemma reap_position tasks now i t :
  tasks !! i = Some t →
  Forall (λ u, ¬ lease_overflows u) (take i tasks) →
  (lease_due t now →
   ∃ t', (reap_stale_leases tasks now).1 !! i = Some t' ∧ reaped t t')
  ∧ (¬ lease_due t now → (reap_stale_leases tasks now).1 !! i = Some t).
Proof.
  intros Hi Hall. unfold reap_stale_leases.
  destruct (reap_loop_lookup tasks now false i t Hi Hall) as [Hdue Hnot].
  split; [|done].
  intros Hd. exists (expire_lease t). split; [by apply Hdue|].
  apply expire_lease_reaped.
Qed.

(** C3. The claim fails where a lease cannot be brought to UTC.  When
    the task [t] is [in_progress] and its [lease_expires_at] parses to a
    [datetime] whose UTC instant is outside years 1 to 9999, and no task
    before it has such a lease, [reap_stale_leases] raises
    [OverflowError] at [t]: it returns no flag, and [t] and every task
    after it are left as they were, also those whose lease is due; only
    the tasks before [t] have been dealt with by the rule.  The lease of
    [t] itself is not due, so by the claim [t] is one of the tasks that
    are left unchanged while the others are reaped. *)
Theorem reap_raises_on_out_of_range_lease (before after : list dict)
    (t : dict) (now : Z) :
  lease_overflows t →
  Forall (λ u, ¬ lease_overflows u) before →
  (reap_stale_leases (before ++ t :: after) now).2 = Raises OverflowError
  ∧ ¬ lease_due t now
  ∧ length (reap_stale_leases (before ++ t :: after) now).1
    = length (before ++ t :: after)
  ∧ (∀ i u, (length before ≤ i)%nat →
            (before ++ t :: after) !! i = Some u →
            (reap_stale_leases (before ++ t :: after) now).1 !! i = Some u)
  ∧ (∀ i u, before !! i = Some u →
       (lease_due u now →
        ∃ u', (reap_stale_leases (before ++ t :: after) now).1 !! i = Some u'
              ∧ reaped u u')
       ∧ (¬ lease_due u now →
          (reap_stale_leases (before ++ t :: after) now).1 !! i = Some u)).
Proof.
  intros Ho Hall. split_and!.
  - apply reap_loop_raises. exists t. split; [|done].
    apply elem_of_app. right. left.
  - intros Hd. by apply lease_due_not_overflows in Hd.
  - apply reap_loop_length.
  - intros i u Hle Hi. by apply reap_loop_beyond.
  - intros i u Hi.
    assert (i < length before)%nat as Hlt by by eapply lookup_lt_Some.
    apply reap_position.
    + by rewrite lookup_app_l.
    + rewrite take_app_le by lia. by apply Forall_take.
Qed.

(** C9. Reaping is idempotent.  Reaping the list that
    [reap_stale_leases] left, at the same [now], leaves that list as it
    is; when the first call returned, the second returns too and reports
    no change, and no task of the list has a due lease any more.  The
    first call returns whenever no lease is out of the [datetime] range;
    when it raised [OverflowError] instead, the second raises it again,
    having changed nothing. *)
Theorem reap_idempotent (tasks : list dict) (now : Z) :
  (reap_stale_leases (reap_stale_leases tasks now).1 now).1
  = (reap_stale_leases tasks now).1
  ∧ (∀ changed, (reap_stale_leases tasks now).2 = Returns changed →
       reap_stale_leases (reap_stale_leases tasks now).1 now
       = ((reap_stale_leases tasks now).1, Returns false)
       ∧ ∀ t, t ∈ (reap_stale_leases tasks now).1 → ¬ lease_due t now)
  ∧ ((reap_stale_leases tasks now).2 = Raises OverflowError →
     reap_stale_leases (reap_stale_leases tasks now).1 now
     = ((reap_stale_leases tasks now).1, Raises OverflowError))
  ∧ (Forall (λ t, ¬ lease_overflows t) tasks →
     ∃ changed, (reap_stale_leases tasks now).2 = Returns changed)
  ∧ ((reap_stale_leases tasks now).2 = Raises OverflowError
     ↔ ∃ t, t ∈ tasks ∧ lease_overflows t).
Proof.
  unfold reap_stale_leases.
  pose proof (reap_loop_again tasks now false false) as Hagain.
  split_and!.
  - by rewrite Hagain.
  - intros changed Hret. rewrite Hret in Hagain. split; [done|].
    intros t Hin Hd.
    assert (Forall (λ t, ¬ lease_overflows t) (reap_loop tasks now false).1)
      as Hall.
    { apply Forall_forall. intros u Hu Ho.
      assert (∃ t, t ∈ tasks ∧ lease_overflows t) as Hex
        by (apply (reap_loop_overflows tasks now false); eauto).
      apply (reap_loop_raises tasks now false) in Hex.
      by rewrite Hex in Hret. }
    destruct (reap_loop_returns _ now false Hall) as (c & Hc & Hiff).
    rewrite Hagain in Hc. injection Hc as <-.
    assert (false = true) as Habs; [|done].
    apply Hiff. right. eauto.
  - intros Hraise. by rewrite Hraise in Hagain.
  - intros Hall.
    destruct (reap_loop_returns tasks now false Hall) as (c & Hc & _).
    by exists c.
  - apply reap_loop_raises.
Qed.

(** X22. Where no lease is out of the [datetime] range, [reap_stale_leases]
    returns, keeps the length and the positions of the list, and deals
    with each task by its fields alone.  A task whose [status] is
    [in_progress] and whose [lease_expires_at] is a string that parses
    to an instant at or before [now] becomes [failed]: [attempts] is the
    former count plus one, [error_log] is the former entries followed by
    the one message [[SESSION_TIMEOUT] Lease expired (claimed_by=...)]
    naming the text of [claimed_by], the fields [claimed_by],
    [lease_expires_at] and [claimed_at] are gone and every other field
    is as before.  Any other task is left as it was: one that is not
    [in_progress], one whose [lease_expires_at] is absent, not a string,
    blank or not a timestamp, and one whose lease ends after [now].  The
    flag returned tells whether some lease was due. *)
Theorem reap_maps_due_leases (tasks : list dict) (now : Z) :
  Forall (λ t, ¬ lease_overflows t) tasks →
  ∃ changed,
    (reap_stale_leases tasks now).2 = Returns changed
    ∧ (changed = true ↔ ∃ u, u ∈ tasks ∧ lease_due u now)
    ∧ length (reap_stale_leases tasks now).1 = length tasks
    ∧ ∀ i t, tasks !! i = Some t →
        (lease_due t now →
         ∃ t', (reap_stale_leases tasks now).1 !! i = Some t'
           ∧ t' !! "status" = Some (VStr "failed")
           ∧ t' !! "attempts" = Some (VInt (attempts_of t + 1))
           ∧ t' !! "error_log"
             = Some (VList
                 (prior_log t
                  ++ [VStr ("[SESSION_TIMEOUT] Lease expired (claimed_by="
                            +:+ holder_text t +:+ ")")]))
           ∧ t' !! "claimed_by" = None
           ∧ t' !! "lease_expires_at" = None
           ∧ t' !! "claimed_at" = None
           ∧ ∀ k, k ∉ ["attempts"; "error_log"; "status"; "claimed_by";
                       "lease_expires_at"; "claimed_at"] →
                  t' !! k = t !! k)
        ∧ (¬ lease_due t now →
           (reap_stale_leases tasks now).1 !! i = Some t)
        ∧ (status_of t ≠ "in_progress" →
           (reap_stale_leases tasks now).1 !! i = Some t)
        ∧ (t !! "lease_expires_at" = None →
           (reap_stale_leases tasks now).1 !! i = Some t)
        ∧ (∀ v, t !! "lease_expires_at" = Some v → (∀ s, v ≠ VStr s) →
                (reap_stale_leases tasks now).1 !! i = Some t)
        ∧ (∀ raw, t !! "lease_expires_at" = Some (VStr raw) →
                  py_strip raw = ""
                  ∨ fromisoformat (utc_text (py_strip raw)) = None →
                  (reap_stale_leases tasks now).1 !! i = Some t)
        ∧ (∀ dt, lease_datetime t = Some dt → now < utc_instant dt →
                 (reap_stale_leases tasks now).1 !! i = Some t).
Proof.
  intros Hall.
  destruct (reap_loop_returns tasks now false Hall) as (changed & Hret & Hc).
  exists changed. split_and!.
  - done.
  - rewrite Hc. split; [by intros [?|?] | by right].
  - apply reap_loop_length.
  - intros i t Hi.
    destruct (reap_position tasks now i t Hi) as [Hdue Hnot];
      [by apply Forall_take|].
    assert (lease_datetime t = None → ¬ lease_due t now) as Hnone.
    { intros Hn (_ & dt & Hdt & _). by rewrite Hn in Hdt. }
    split_and!.
    + intros Hd. destruct (Hdue Hd) as (t' & Ht' & Hr).
      exists t'. split; [done|]. exact Hr.
    + done.
    + intros Hs. apply Hnot. by intros [? _].
    + intros Hl. apply Hnot, Hnone. unfold lease_datetime. by rewrite Hl.
    + intros v Hl Hv. apply Hnot, Hnone. unfold lease_datetime. rewrite Hl.
      destruct v; try done. by destruct (Hv s).
    + intros raw Hl Hraw. apply Hnot, Hnone. unfold lease_datetime.
      rewrite Hl. destruct Hraw as [->|Hraw]; [done|].
      by destruct (String.eqb _ "").
    + intros dt Hdt Hlt. apply Hnot.
      intros (_ & dt' & Hdt' & _ & Hle).
      rewrite Hdt in Hdt'. injection Hdt' as <-. lia.
Qed.

End Claims.

End Leases.

(* ===================================================================== *)
(** ** The state store: loading, parsing, saving *)
(* ===================================================================== *)

Module StoreFacts.

Import Store.

Lemma append_ne_self (s x : string) : x ≠ "" → s +:+ x ≠ s.
Proof.
  intros Hx. induction s as [|c s IH]; simpl; [done|].
  intros [= Heq]. by apply IH.
Qed.

Lemma sibling_names (name : string) :
  name +:+ ".bak" ≠ name ∧ name +:+ ".tmp" ≠ name
  ∧ name +:+ ".tmp" ≠ name +:+ ".bak".
Proof.
  split_and!; [by apply append_ne_self..|].
  intros Heq. by apply String.app_inj in Heq.
Qed.

(** The objects among the elements of a list, as [parse_tasks] keeps
    them. *)
Lemma objects_of_list (raw : list value) :
  VDict <$> omap (λ t, match t with VDict d => Some d | _ => None end) raw
  = filter (λ v, is_dict v = true) raw.
Proof.
  induction raw as [|v raw IH]; [done|].
  rewrite filter_cons. destruct v; simpl; try done.
  f_equal. exact IH.
Qed.

Section Facts.
Context `{PyRuntime}.

(** The file system after a save over an existing document, when the
    text can be written. *)
Lemma atomic_write_result (σ : fs) (name : string) (parent : path)
    (data : dict) (old : string) :
  σ !! (name :: parent) = Some old →
  utf8_encodable (json_dumps_indent2 (VDict data) +:+ newline) = true →
  atomic_write_json (name :: parent) data σ
  = (Ok tt,
     <[name :: parent := json_dumps_indent2 (VDict data) +:+ newline]>
       (delete ((name +:+ ".tmp") :: parent)
          (<[(name +:+ ".tmp") :: parent
             := json_dumps_indent2 (VDict data) +:+ newline]>
             (<[(name +:+ ".bak") :: parent := old]> σ)))).
Proof.
  intros Hold Henc.
  unfold atomic_write_json, mbind, io_bind, io_lift, copy2, write_text,
    os_replace; simpl.
  rewrite Hold, Henc. by rewrite lookup_insert_eq.
Qed.

(** The file system after a save whose text cannot be encoded: the
    backup has been made and the temporary file is there, empty. *)
Lemma atomic_write_unencodable (σ : fs) (name : string) (parent : path)
    (data : dict) (old : string) :
  σ !! (name :: parent) = Some old →
  utf8_encodable (json_dumps_indent2 (VDict data) +:+ newline) = false →
  atomic_write_json (name :: parent) data σ
  = (Raise UnicodeEncodeError,
     <[(name +:+ ".tmp") :: parent := ""]>
       (<[(name +:+ ".bak") :: parent := old]> σ)).
Proof.
  intros Hold Henc.
  unfold atomic_write_json, mbind, io_bind, io_lift, copy2, write_text,
    os_replace; simpl.
  by rewrite Hold, Henc.
Qed.

(** Saving over an existing document: the old text is kept under the
    [.bak] name, the new text replaces the document, and the temporary
    file is gone. *)
Lemma atomic_write_replaces (σ : fs) (name : string) (parent : path)
    (data : dict) (old : string) :
  σ !! (name :: parent) = Some old →
  utf8_encodable (json_dumps_indent2 (VDict data) +:+ newline) = true →
  ∃ σ', atomic_write_json (name :: parent) data σ = (Ok tt, σ')
    ∧ σ' !! (name :: parent)
      = Some (json_dumps_indent2 (VDict data) +:+ newline)
    ∧ σ' !! ((name +:+ ".bak") :: parent) = Some old
    ∧ σ' !! ((name +:+ ".tmp") :: parent) = None.
Proof.
  intros Hold Henc.
  destruct (sibling_names name) as (Hbak & Htmp & Hne).
  rewrite (atomic_write_result σ name parent data old Hold Henc).
  eexists. split; [done|].
  split_and!.
  - by rewrite lookup_insert_eq.
  - rewrite lookup_insert_ne by congruence.
    rewrite lookup_delete_ne by congruence.
    rewrite lookup_insert_ne by congruence.
    by rewrite lookup_insert_eq.
  - rewrite lookup_insert_ne by congruence.
    by rewrite lookup_delete_eq.
Qed.

(** [parse_tasks] by the [tasks] field. *)
Lemma parse_tasks_cases (state : dict) :
  (state !! "tasks" = None ∧ parse_tasks state = Ok [])
  ∨ (∃ v, state !! "tasks" = Some v ∧ truthy v = false
          ∧ parse_tasks state = Ok [])
  ∨ (∃ raw, state !! "tasks" = Some (VList raw) ∧ raw ≠ []
            ∧ parse_tasks state
              = Ok (omap (λ t, match t with VDict d => Some d | _ => None end)
                         raw))
  ∨ (∃ v, state !! "tasks" = Some v ∧ truthy v = true ∧ is_list v = false
          ∧ parse_tasks state = Raise (ValueError "tasks must be a list")).
Proof.
  unfold parse_tasks, dict_get, py_or.
  destruct (state !! "tasks") as [v|]; simpl; [|by left].
  destruct (truthy v) eqn:Ht.
  - destruct v as [| | | | |raw|];
      try (right; right; right; eexists; by split_and!).
    right; right; left. exists raw. split_and!; [done| |done].
    by intros ->.
  - right; left. exists v. by split_and!.
Qed.

End Facts.

End StoreFacts.

Module StoreClaims.

Import Store StoreFacts.

(** C8, as stated, fails: for the document [{"tasks": "not a list"}]
    [parse_tasks] raises [ValueError]; it does not return the empty task
    list. *)
Lemma parse_tasks_raises_on_non_list :
  parse_tasks Scenarios.tasks_not_a_list
  = Raise (ValueError "tasks must be a list")
  ∧ parse_tasks Scenarios.tasks_not_a_list ≠ Ok [].
Proof. split; [reflexivity | discriminate]. Qed.

Section Claims.
Context `{PyRuntime}.

(** C8, amended. Structurally invalid content is reported to the caller
    as [ValueError]: [load_json] raises the one that says the document
    must be a JSON object exactly when the text decodes to something
    that is not an object, and [parse_tasks] raises exactly when [tasks]
    holds a truthy value that is not a list.  In every other case
    [parse_tasks] returns, in their order, the objects among the
    elements of the list; that is the empty task list when [tasks] is
    absent, when it holds a falsy value, and when it is a list none of
    whose elements is an object, as for [[1, "x"]]. *)
Theorem invalid_structure_raises_ValueError :
  (∀ (σ : fs) (p : path) (text : string) (v : value),
      σ !! p = Some text → json_loads text = Some v → is_dict v = false →
      load_json p σ
      = (Raise (ValueError (path_name p +:+ " must be a JSON object")), σ))
  ∧ (∀ (state : dict) (v : value),
        state !! "tasks" = Some v → truthy v = true → is_list v = false →
        parse_tasks state = Raise (ValueError "tasks must be a list"))
  ∧ (∀ state : dict, state !! "tasks" = None → parse_tasks state = Ok [])
  ∧ (∀ (state : dict) (v : value),
        state !! "tasks" = Some v → truthy v = false →
        parse_tasks state = Ok [])
  ∧ (∀ (state : dict) (raw : list value),
        state !! "tasks" = Some (VList raw) →
        parse_tasks state
        = Ok (omap (λ t, match t with VDict d => Some d | _ => None end)
                   raw))
  ∧ (∀ (state : dict) (e : exn),
        parse_tasks state = Raise e
        ↔ e = ValueError "tasks must be a list"
          ∧ ∃ v, state !! "tasks" = Some v ∧ truthy v = true
                 ∧ is_list v = false)
  ∧ (∀ (state : dict) (tasks : list dict),
        parse_tasks state = Ok tasks
        ↔ (tasks = []
           ∧ (state !! "tasks" = None
              ∨ ∃ v, state !! "tasks" = Some v ∧ truthy v = false))
          ∨ ∃ raw, state !! "tasks" = Some (VList raw)
                   ∧ VDict <$> tasks = filter (λ v, is_dict v = true) raw)
  ∧ (∀ state : dict,
        parse_tasks state = Ok []
        ↔ state !! "tasks" = None
          ∨ (∃ v, state !! "tasks" = Some v ∧ truthy v = false)
          ∨ ∃ raw, state !! "tasks" = Some (VList raw)
                   ∧ Forall (λ v, is_dict v = false) raw)
  ∧ (∀ (σ σ' : fs) (p : path) (msg : string),
        load_json p σ = (Raise (ValueError msg), σ')
        ↔ ∃ text v, σ !! p = Some text ∧ json_loads text = Some v
                    ∧ is_dict v = false
                    ∧ msg = path_name p +:+ " must be a JSON object"
                    ∧ σ' = σ)
  ∧ (∀ (σ σ' : fs) (p : path) (data : dict),
        load_json p σ = (Ok data, σ')
        ↔ ∃ text, σ !! p = Some text ∧ json_loads text = Some (VDict data)
                  ∧ σ' = σ)
  ∧ parse_tasks Scenarios.tasks_without_objects = Ok [].
Proof.
  assert (Hlist : ∀ (state : dict) (raw : list value),
            state !! "tasks" = Some (VList raw) →
            parse_tasks state
            = Ok (omap (λ t, match t with VDict d => Some d | _ => None end)
                       raw)).
  { intros state raw Hs. unfold parse_tasks, dict_get, py_or.
    rewrite Hs; simpl. by destruct raw. }
  assert (Hok : ∀ (state : dict) (tasks : list dict),
            parse_tasks state = Ok tasks
            ↔ (tasks = []
               ∧ (state !! "tasks" = None
                  ∨ ∃ v, state !! "tasks" = Some v ∧ truthy v = false))
              ∨ ∃ raw, state !! "tasks" = Some (VList raw)
                       ∧ VDict <$> tasks
                         = filter (λ v, is_dict v = true) raw).
  { intros state tasks. split.
    - intros Hp.
      destruct (parse_tasks_cases state)
        as [[Hn E]|[(v & Hv & Ht & E)|[(raw & Hv & _ & E)|(v & _ & _ & _ & E)]]];
        rewrite E in Hp; try done; injection Hp as <-.
      + left. split; [done|by left].
      + left. split; [done|]. right. eauto.
      + right. exists raw. split; [done|]. apply objects_of_list.
    - intros [[-> [Hn|(v & Hv & Ht)]]|(raw & Hv & Hobj)].
      + destruct (parse_tasks_cases state)
          as [[_ E]|[(v & Hv & _ & E)|[(raw & Hv & _ & E)|(v & Hv & _ & _ & E)]]];
          congruence.
      + destruct (parse_tasks_cases state)
          as [[Hn E]|[(v' & Hv' & _ & E)
                     |[(raw & Hv' & Hne & E)|(v' & Hv' & Ht' & _ & E)]]];
          try congruence.
        rewrite Hv in Hv'. injection Hv' as ->. by destruct raw.
      + rewrite (Hlist state raw Hv). f_equal.
        rewrite <- objects_of_list in Hobj.
        revert Hobj. generalize (omap (λ t, match t with
                                           | VDict d => Some d
                                           | _ => None
                                           end) raw).
        intros l. revert l. induction tasks as [|t tasks IH]; intros [|u l];
          try done.
        simpl. intros [= -> Hrest]. f_equal. by apply IH. }
  split_and!.
  - intros σ p text v Hp Hv Hd. unfold load_json. rewrite Hp, Hv.
    by destruct v.
  - intros state v Hs Ht Hl. unfold parse_tasks, dict_get, py_or.
    rewrite Hs; simpl. rewrite Ht. by destruct v.
  - intros state Hs. unfold parse_tasks, dict_get, py_or. by rewrite Hs.
  - intros state v Hs Ht. unfold parse_tasks, dict_get, py_or.
    rewrite Hs; simpl. by rewrite Ht.
  - exact Hlist.
  - intros state e. split.
    + intros Hp.
      destruct (parse_tasks_cases state)
        as [[Hn E]|[(v & Hv & Ht & E)|[(raw & Hv & _ & E)|(v & Hv & Ht & Hl & E)]]];
        rewrite E in Hp; try done.
      injection Hp as <-. split; [done|]. eauto.
    + intros (-> & v & Hv & Ht & Hl).
      destruct (parse_tasks_cases state)
        as [[Hn E]|[(v' & Hv' & Ht' & E)
                   |[(raw & Hv' & _ & E)|(v' & _ & _ & _ & E)]]];
        try congruence.
      rewrite Hv in Hv'. injection Hv' as ->. done.
  - exact Hok.
  - intros state. rewrite Hok. split.
    + intros [[_ [?|?]]|(raw & Hv & Hobj)]; [by left|by right; left|].
      right; right. exists raw. split; [done|].
      apply Forall_forall. intros v Hin.
      destruct (is_dict v) eqn:Hd; [|done].
      assert (v ∈ filter (λ v, is_dict v = true) raw) as Hf
        by by apply list_elem_of_filter.
      rewrite <- Hobj in Hf. by apply elem_of_nil in Hf.
    + intros [?|[?|(raw & Hv & Hall)]]; [left; split; [done|by left]
                                        |left; split; [done|by right]|].
      right. exists raw. split; [done|]. symmetry. clear Hv.
      induction Hall as [|v raw Hv' Hall IH]; [done|].
      rewrite filter_cons, decide_False by by rewrite Hv'.
      apply IH.
  - intros σ σ' p msg. unfold load_json. split.
    + destruct (σ !! p) as [text|]; [|done].
      destruct (json_loads text) as [v|] eqn:E; [|done].
      destruct v; try done; intros [= <- <-]; eexists _, _; by split_and!.
    + intros (text & v & -> & -> & Hd & -> & ->). by destruct v.
  - intros σ σ' p data. unfold load_json. split.
    + destruct (σ !! p) as [text|]; [|done].
      destruct (json_loads text) as [v|] eqn:E; [|done].
      destruct v; try done. intros [= <- <-]. by eexists.
    + by intros (text & -> & -> & ->).
  - reflexivity.
Qed.

(** C10. [atomic_write_json] cannot create the first document: when no
    file exists at the target path it raises, and it raises before
    anything is written, so the file system is as it was; for a path
    with a name the exception is the [FileNotFoundError] of the backup
    copy. *)
Theorem atomic_write_needs_existing_file (σ : fs) (p : path) (data : dict) :
  σ !! p = None →
  ∃ e, atomic_write_json p data σ = (Raise e, σ)
       ∧ (p ≠ [] → e = FileNotFoundError).
Proof.
  intros Hp. destruct p as [|name parent].
  - eexists. split; [reflexivity | done].
  - exists FileNotFoundError. split; [|done].
    unfold atomic_write_json, mbind, io_bind, io_lift, copy2; simpl.
    by rewrite Hp.
Qed.

End Claims.

End StoreClaims.

(* ===================================================================== *)
(** ** The termination safety valve *)
(* ===================================================================== *)

Module ValveClaims.

Import SafetyValve.

Section Claims.
Variable threshold : nat.

(** Below the threshold every blocking invocation with an unchanged
    completed count is a block, whatever its re-entrancy signal, and the
    counter advances by one each time. *)
Lemma valve_run_blocks (k c : nat) (flags : list bool) :
  (k + length flags ≤ threshold)%nat →
  valve_run threshold {| consecutive_blocks := k; last_completed := c |}
            ((λ r, (c, r, Block)) <$> flags)
  = (replicate (length flags) Block,
     {| consecutive_blocks := k + length flags; last_completed := c |}).
Proof.
  revert k. induction flags as [|r flags IH]; intros k Hk; simpl in *.
  - by rewrite Nat.add_0_r.
  - unfold valve_step at 1; simpl.
    destruct (Nat.leb_spec threshold k) as [?|_]; [lia|]. simpl.
    unfold on_block; simpl. rewrite Nat.ltb_irrefl.
    rewrite IH by lia. by rewrite Nat.add_succ_r.
Qed.

Lemma valve_run_app v xs ys :
  valve_run threshold v (xs ++ ys)
  = let '(ds, v') := valve_run threshold v xs in
    let '(ds', v'') := valve_run threshold v' ys in
    (ds ++ ds', v'').
Proof.
  revert v. induction xs as [|[[c r] e] xs IH]; intros v; simpl.
  - by destruct (valve_run threshold v ys).
  - destruct (valve_step threshold v c r e) as [d v1].
    rewrite IH. destruct (valve_run threshold v1 xs) as [ds v2].
    by destruct (valve_run threshold v2 ys).
Qed.

(** C7. While the valve does not force an allow, a block decision with
    the completed count not above the recorded one adds one to the
    persisted counter, and a block decision with a higher completed count
    sets the counter to 1 and records that count.  With the counter at or
    above the threshold and the re-entrancy signal set, the decision is
    allow even when the engine would block.  So a run of blocking
    invocations with a constant completed count, starting from a fresh
    counter, is blocked exactly [threshold] times, the counter going from
    1 to [threshold], and the next invocation that carries the
    re-entrancy signal is allowed. *)
Theorem valve_counts_then_allows :
  (∀ v completed reentrant,
      (threshold <=? consecutive_blocks v)%nat && reentrant = false →
      (completed ≤ last_completed v)%nat →
      valve_step threshold v completed reentrant Block
      = (Block, {| consecutive_blocks := S (consecutive_blocks v);
                   last_completed := last_completed v |}))
  ∧ (∀ v completed engine,
        (threshold ≤ consecutive_blocks v)%nat →
        (valve_step threshold v completed true engine).1 = Allow)
  ∧ (∀ v completed reentrant,
        (threshold <=? consecutive_blocks v)%nat && reentrant = false →
        (last_completed v < completed)%nat →
        valve_step threshold v completed reentrant Block
        = (Block, {| consecutive_blocks := 1;
                     last_completed := completed |}))
  ∧ (∀ (c : nat) (flags : list bool),
        length flags = threshold →
        valve_run threshold
          {| consecutive_blocks := 0; last_completed := c |}
          (((λ r, (c, r, Block)) <$> flags) ++ [(c, true, Block)])
        = (replicate threshold Block ++ [Allow],
           {| consecutive_blocks := threshold; last_completed := c |})).
Proof.
  split_and!.
  - intros v completed reentrant Hgate Hsame.
    unfold valve_step, on_block. rewrite Hgate.
    by destruct (Nat.ltb_spec (last_completed v) completed); [lia|].
  - intros v completed engine Hv. unfold valve_step.
    by destruct (Nat.leb_spec threshold (consecutive_blocks v)); [|lia].
  - intros v completed reentrant Hgate Hmore.
    unfold valve_step, on_block. rewrite Hgate.
    by destruct (Nat.ltb_spec (last_completed v) completed); [|lia].
  - intros c flags Hlen. rewrite valve_run_app.
    rewrite valve_run_blocks by (simpl; lia). simpl.
    rewrite Hlen. unfold valve_step; simpl. by rewrite Nat.leb_refl.
Qed.

End Claims.

(** The three valve tests of [TestStopHookTaskLogic], read in this model:
    counter file [9,0] with the signal and no completed task is allowed,
    [2,0] is blocked, and [7,0] with one completed task is blocked and
    leaves [1,1].  They hold exactly for a threshold of 8 or 9. *)
Lemma valve_tests_pin_threshold (threshold : nat) :
  ((valve_step threshold {| consecutive_blocks := 9; last_completed := 0 |}
               0 true Block).1 = Allow
   ∧ (valve_step threshold {| consecutive_blocks := 2; last_completed := 0 |}
                 0 true Block).1 = Block
   ∧ valve_step threshold {| consecutive_blocks := 7; last_completed := 0 |}
                1 true Block
     = (Block, {| consecutive_blocks := 1; last_completed := 1 |}))
  ↔ (8 ≤ threshold ≤ 9)%nat.
Proof.
  unfold valve_step, on_block; simpl.
  destruct (Nat.leb_spec threshold 9), (Nat.leb_spec threshold 2),
    (Nat.leb_spec threshold 7); simpl; split; intros; try lia;
    try (split_and!; done); destruct_and?; try discriminate.
Qed.

End ValveClaims.

(* ===================================================================== *)
(** ** The reflection stop hook *)
(* ===================================================================== *)

Module ReflectFacts.

Import Store Reflect.

Lemma string_app_assoc (a b c : string) : (a +:+ b) +:+ c = a +:+ b +:+ c.
Proof. induction a as [|x a IH]; [done | exact (f_equal (String x) IH)]. Qed.

Lemma prefix_app (p s : string) : String.prefix p (p +:+ s) = true.
Proof.
  induction p as [|c p IH]; [by destruct s|].
  change (String c p +:+ s) with (String c (p +:+ s)). simpl.
  by destruct (ascii_dec c c).
Qed.

Lemma first_line_no_space s : Reference.no_space s → first_line s = s.
Proof.
  unfold Reference.no_space. induction s as [|c s IH]; [done|].
  intros Hs. apply Forall_cons_1 in Hs as [Hc Hs]. simpl.
  destruct (Ascii.eqb_spec c "010"%char) as [->|_]; [done|].
  by rewrite IH.
Qed.

Lemma first_line_decimal (n : Z) : first_line (py_str_int n) = py_str_int n.
Proof. apply first_line_no_space, ReferenceFacts.decimal_no_space. Qed.

(** The iteration heading, and so the reason, shows [iteration/max]. *)
Lemma reason_contains_iteration (iteration max_iter : Z) (prompt : string) :
  contains (py_str_int iteration +:+ "/" +:+ py_str_int max_iter)
           (reflect_reason iteration max_iter prompt).
Proof.
  unfold contains, reflect_reason, heading.
  exists "[Self-Reflect] 迭代 ".
  destruct (String.eqb prompt ""); cbn [join_lines app]; eexists;
    rewrite !string_app_assoc; reflexivity.
Qed.

Section Facts.
Context `{PyRuntime}.

Lemma search_candidates_same w w' candidates seen :
  same_discovery w w' →
  search_candidates w' candidates seen = search_candidates w candidates seen.
Proof.
  intros (_ & _ & Hres & Hdoc). revert seen.
  induction candidates as [|c rest IH]; intros seen; simpl; [done|].
  rewrite Hres. destruct (resolve w c) as [base|]; [|done].
  case_bool_decide; [done|].
  assert (∀ l,
    List.find (λ parent, is_file w' ("harness-tasks.json" :: parent)) l
    = List.find (λ parent, is_file w ("harness-tasks.json" :: parent)) l)
    as ->.
  { induction l as [|x l IHl]; simpl; [done|]. by rewrite Hdoc, IHl. }
  by rewrite Hdoc, IH.
Qed.

Lemma find_harness_root_same w w' payload :
  same_discovery w w' →
  find_harness_root w' payload = find_harness_root w payload.
Proof.
  intros Hsame. pose proof Hsame as (Henv & Hcwd & Hres & Hdoc).
  unfold find_harness_root, env_nonempty.
  rewrite Henv, Hcwd, Hres.
  destruct (environ w !! "HARNESS_STATE_ROOT") as [s|]; simpl.
  - destruct (String.eqb s ""); simpl.
    + destruct (py_or _ _); try done.
      by rewrite (search_candidates_same w w').
    + destruct (resolve w s) as [p|]; simpl.
      * rewrite Hdoc. destruct (is_file w _); [done|].
        destruct (py_or _ _); try done.
        by rewrite (search_candidates_same w w').
      * destruct (py_or _ _); try done.
        by rewrite (search_candidates_same w w').
  - destruct (py_or _ _); try done.
    by rewrite (search_candidates_same w w').
Qed.

Lemma counter_name_ne (s other : string) :
  String.prefix "claude-reflect-" other = false →
  "claude-reflect-" +:+ s ≠ other.
Proof. intros Hpre <-. by rewrite prefix_app in Hpre. Qed.

(** What [_write_counter] leaves alone: every file but the counter file
    of the session, and the rest of the world. *)
Lemma write_counter_frame w sid n :
  let w' := _write_counter w sid n in
  environ w' = environ w ∧ getcwd w' = getcwd w
  ∧ gettempdir w' = gettempdir w ∧ resolve w' = resolve w
  ∧ writable w' = writable w ∧ transcript_prompt w' = transcript_prompt w
  ∧ ∀ p, p ≠ _counter_path w sid → files w' !! p = files w !! p.
Proof.
  unfold _write_counter. destruct (writable w _); simpl; split_and!;
    try done.
  intros p Hp. by rewrite lookup_insert_ne.
Qed.

Lemma write_counter_is_file w sid n (name : string) (parent : path) :
  String.prefix "claude-reflect-" name = false →
  is_file (_write_counter w sid n) (name :: parent)
  = is_file w (name :: parent).
Proof.
  intros Hname. unfold is_file.
  destruct (write_counter_frame w sid n) as (_ & _ & _ & _ & _ & _ & Hf).
  rewrite Hf; [done|].
  unfold _counter_path. intros [= Heq _]. symmetry in Heq.
  by apply counter_name_ne in Heq.
Qed.

Lemma write_counter_same_discovery w sid n :
  same_discovery w (_write_counter w sid n).
Proof.
  destruct (write_counter_frame w sid n) as (? & ? & _ & ? & _).
  split_and!; try done.
  intros parent. by apply write_counter_is_file.
Qed.

Lemma read_after_write w sid n :
  writable w (_counter_path w sid) = true →
  _read_counter (_write_counter w sid n) sid = n.
Proof.
  intros Hw. unfold _read_counter, _write_counter. rewrite Hw.
  unfold _counter_path; simpl. rewrite lookup_insert_eq.
  by rewrite strip_decimal, first_line_decimal, int_of_str_decimal.
Qed.

(** One invocation of an armed hook below its maximum: it blocks, shows
    the next iteration, and stores it. *)
Lemma main_blocks w payload root max_iter count :
  armed w payload root max_iter →
  _read_counter w (dict_get payload "session_id" (VStr "")) = count →
  0 < max_iter → count < max_iter →
  main w payload
  = (Block (reflect_reason (count + 1) max_iter
              (transcript_prompt w
                 (dict_get payload "transcript_path" (VStr "")))),
     _write_counter w (dict_get payload "session_id" (VStr ""))
                    (count + 1)).
Proof.
  intros (Hsid & Hroot & Hact & Hmax & _ & Hmsg) Hcount Hpos Hlt.
  unfold main. rewrite Hsid, Hroot, Hact, Hmax, Hcount, Hmsg. simpl.
  destruct (Z.leb_spec max_iter 0); [lia|].
  by destruct (Z.leb_spec max_iter count); [lia|].
Qed.

(** At its maximum the hook returns without output and touches
    nothing. *)
Lemma main_exhausted w payload root max_iter :
  armed w payload root max_iter →
  max_iter ≤ _read_counter w (dict_get payload "session_id" (VStr "")) →
  main w payload = (Silent, w).
Proof.
  intros (Hsid & Hroot & Hact & Hmax & _ & Hmsg) Hge.
  unfold main. rewrite Hsid, Hroot, Hact, Hmax. simpl.
  destruct (Z.leb_spec max_iter 0); [done|].
  by destruct (Z.leb_spec max_iter
                 (_read_counter w (dict_get payload "session_id" (VStr ""))));
    [|lia].
Qed.

Lemma armed_after_write w payload root max_iter n :
  armed w payload root max_iter →
  armed (_write_counter w (dict_get payload "session_id" (VStr "")) n)
        payload root max_iter.
Proof.
  intros (Hsid & Hroot & Hact & Hmax & Hwr & Hmsg).
  set (sid := dict_get payload "session_id" (VStr "")) in *.
  destruct (write_counter_frame w sid n)
    as (Henv & _ & Htmp & _ & Hwr' & _ & _).
  split_and!; try done.
  - by rewrite (find_harness_root_same w) by apply write_counter_same_discovery.
  - by rewrite write_counter_is_file.
  - unfold max_iterations. by rewrite Henv.
  - rewrite Hwr'. unfold _counter_path in *. by rewrite Htmp.
Qed.

(** The hook never writes or removes anything but the counter file of
    the session. *)
Lemma main_frame w payload p :
  p ≠ _counter_path w (dict_get payload "session_id" (VStr "")) →
  files (main w payload).2 !! p = files w !! p.
Proof.
  intros Hp. unfold main.
  destruct (write_counter_frame w (dict_get payload "session_id" (VStr ""))
              (_read_counter w (dict_get payload "session_id" (VStr "")) + 1))
    as (_ & _ & _ & _ & _ & _ & Hf).
  repeat (match goal with
          | |- context [if ?b then _ else _] => destruct b
          | |- context [match ?x with _ => _ end] => destruct x
          end; simpl; try done); by apply Hf.
Qed.

End Facts.

End ReflectFacts.

Module ReflectClaims.

Import Store Reflect ReflectFacts.

Section Claims.
Context `{PyRuntime}.

(** The guards that hold: without a task document, or with the active
    marker present, the hook returns without output; and so it does
    whenever the configured maximum is zero or less. *)
Lemma reflect_guards (w : world) (payload : dict) :
  (find_harness_root w payload = Some None → main w payload = (Silent, w))
  ∧ (∀ root, find_harness_root w payload = Some (Some root) →
             is_file w (".harness-active" :: root) = true →
             main w payload = (Silent, w))
  ∧ (find_harness_root w payload ≠ None → max_iterations w ≤ 0 →
     main w payload = (Silent, w)).
Proof.
  split_and!.
  - intros Hr. unfold main. rewrite Hr. by destruct (truthy _).
  - intros root Hr Ha. unfold main. rewrite Hr, Ha. by destruct (truthy _).
  - intros Hr Hmax. unfold main.
    destruct (truthy _); [|done]. simpl.
    destruct (find_harness_root w payload) as [[root|]|]; try done.
    destruct (is_file w _); [done|].
    by destruct (Z.leb_spec (max_iterations w) 0); [|lia].
Qed.

Lemma invocations_block (n : nat) w payload root max_iter count :
  armed w payload root max_iter →
  _read_counter w (dict_get payload "session_id" (VStr "")) = count →
  0 < max_iter → count < max_iter →
  let w1 := _write_counter w (dict_get payload "session_id" (VStr ""))
                           (count + 1) in
  invocations (S n) w payload
  = (Block (reflect_reason (count + 1) max_iter
              (transcript_prompt w
                 (dict_get payload "transcript_path" (VStr ""))))
       :: (invocations n w1 payload).1,
     (invocations n w1 payload).2)
  ∧ armed w1 payload root max_iter
  ∧ _read_counter w1 (dict_get payload "session_id" (VStr "")) = count + 1.
Proof.
  intros Harmed Hcount Hpos Hlt w1. split_and!.
  - cbn [invocations].
    rewrite (main_blocks w payload root max_iter count) by done.
    fold w1. by destruct (invocations n w1 payload).
  - by apply armed_after_write.
  - apply read_after_write. by destruct Harmed as (_ & _ & _ & _ & ? & _).
Qed.

(** C5, at the input where it fails.  The task document is found, no
    session is active, the loop has its default maximum and the session
    has not reflected yet, and the reflect-pending marker is absent:
    the hook still prints a block decision, for iteration 1 of 5. *)
Theorem reflect_blocks_without_pending_marker (w : world) (payload : dict)
    (root : path) :
  armed w payload root 5 →
  _read_counter w (dict_get payload "session_id" (VStr "")) = 0 →
  is_file w (".harness-reflect" :: root) = false →
  ∃ reason, (main w payload).1 = Block reason ∧ contains "1/5" reason.
Proof.
  intros Harmed Hcount _.
  rewrite (main_blocks w payload root 5 0) by done.
  eexists. split; [done|]. exact (reason_contains_iteration 1 5 _).
Qed.

(** C6, at the input where it fails.  For a maximum of 5 and a session
    that has not reflected yet, the first five invocations print block
    decisions whose reasons show 1/5 to 5/5 and the sixth returns without
    output, the counter standing at 5; but the reflect-pending marker
    that was there before the first invocation is still there after the
    sixth. *)
Theorem sixth_invocation_keeps_reflect_marker (w : world) (payload : dict)
    (root : path) :
  armed w payload root 5 →
  _read_counter w (dict_get payload "session_id" (VStr "")) = 0 →
  is_file w (".harness-reflect" :: root) = true →
  ∃ r1 r2 r3 r4 r5 w',
    invocations 6 w payload
    = ([Block r1; Block r2; Block r3; Block r4; Block r5; Silent], w')
    ∧ contains "1/5" r1 ∧ contains "2/5" r2 ∧ contains "3/5" r3
    ∧ contains "4/5" r4 ∧ contains "5/5" r5
    ∧ _read_counter w' (dict_get payload "session_id" (VStr "")) = 5
    ∧ is_file w' (".harness-reflect" :: root) = true.
Proof.
  intros Ha0 Hc0 Hmarker.
  destruct (invocations_block 5 w payload root 5 0 Ha0 Hc0)
    as (E1 & Ha1 & Hc1); [lia..|].
  set (w1 := _write_counter w _ (0 + 1)) in *.
  destruct (invocations_block 4 w1 payload root 5 (0 + 1) Ha1 Hc1)
    as (E2 & Ha2 & Hc2); [lia..|].
  set (w2 := _write_counter w1 _ (0 + 1 + 1)) in *.
  destruct (invocations_block 3 w2 payload root 5 (0 + 1 + 1) Ha2 Hc2)
    as (E3 & Ha3 & Hc3); [lia..|].
  set (w3 := _write_counter w2 _ (0 + 1 + 1 + 1)) in *.
  destruct (invocations_block 2 w3 payload root 5 (0 + 1 + 1 + 1) Ha3 Hc3)
    as (E4 & Ha4 & Hc4); [lia..|].
  set (w4 := _write_counter w3 _ (0 + 1 + 1 + 1 + 1)) in *.
  destruct (invocations_block 1 w4 payload root 5 (0 + 1 + 1 + 1 + 1)
              Ha4 Hc4) as (E5 & Ha5 & Hc5); [lia..|].
  set (w5 := _write_counter w4 _ (0 + 1 + 1 + 1 + 1 + 1)) in *.
  assert (invocations 1 w5 payload = ([Silent], w5)) as E6.
  { cbn [invocations].
    assert (main w5 payload = (Silent, w5)) as ->; [|done].
    apply (main_exhausted w5 payload root 5); [done|].
    rewrite Hc5. lia. }
  rewrite E6 in E5. rewrite E5 in E4. rewrite E4 in E3. rewrite E3 in E2.
  rewrite E2 in E1. simpl in E1.
  do 5 eexists. exists w5. split; [exact E1|].
  split_and!;
    try (exact (reason_contains_iteration _ 5 _)); [by rewrite Hc5|].
  subst w5 w4 w3 w2 w1.
  by rewrite !write_counter_is_file.
Qed.

End Claims.

End ReflectClaims.

(* ===================================================================== *)
(** ** The properties at concrete documents *)
(* ===================================================================== *)

Module Witnesses.

Import Common Store Reflect ReferenceFacts.

Lemma leased_is_due : lease_due Scenarios.leased Scenarios.after_expiry.
Proof.
  split; [vm_compute; reflexivity|].
  exists {| dt_wall := 1767225600000000; dt_offset := Some 0 |}.
  split_and!; [vm_compute; reflexivity|..].
  - unfold in_datetime_range, utc_instant, DATETIME_MIN, DATETIME_MAX.
    simpl. lia.
  - unfold utc_instant, Scenarios.after_expiry. simpl. lia.
Defined.

Lemma far_lease_overflows : lease_overflows Scenarios.far_lease.
Proof.
  split; [vm_compute; reflexivity|].
  exists {| dt_wall := 253402300799000000;
            dt_offset := Some (-3600000000) |}.
  split; [vm_compute; reflexivity|].
  unfold in_datetime_range, utc_instant, DATETIME_MIN, DATETIME_MAX.
  simpl. lia.
Defined.

(** A task whose lease ends in year 9999 one hour behind UTC, followed by
    the leased task of the scenarios one second after its lease ended:
    the call raises, and the due lease is still held. *)
Lemma reap_raises_on_out_of_range_lease_witness :
  lease_overflows Scenarios.far_lease
  ∧ lease_due Scenarios.leased Scenarios.after_expiry
  ∧ (reap_stale_leases [Scenarios.far_lease; Scenarios.leased]
                       Scenarios.after_expiry).2 = Raises OverflowError
  ∧ (reap_stale_leases [Scenarios.far_lease; Scenarios.leased]
                       Scenarios.after_expiry).1 !! 1%nat
    = Some Scenarios.leased.
Proof.
  split; [exact far_lease_overflows|]. split; [exact leased_is_due|].
  destruct (Leases.reap_raises_on_out_of_range_lease
              [] [Scenarios.leased] Scenarios.far_lease
              Scenarios.after_expiry far_lease_overflows (Forall_nil_2 _))
    as (Hraise & _ & _ & Hafter & _).
  split; [exact Hraise|].
  apply (Hafter 1%nat); [simpl; lia | reflexivity].
Defined.

(** The leased task of the scenarios, reaped one second after its lease
    ended: it is failed, on its second attempt, and no longer held. *)
Lemma reap_maps_due_leases_witness :
  ∃ t', (reap_stale_leases [Scenarios.leased] Scenarios.after_expiry).2
        = Returns true
        ∧ (reap_stale_leases [Scenarios.leased] Scenarios.after_expiry).1
            !! 0%nat = Some t'
        ∧ t' !! "status" = Some (VStr "failed")
        ∧ t' !! "attempts" = Some (VInt 2)
        ∧ t' !! "error_log"
          = Some (VList [VStr "first failure";
                         VStr "[SESSION_TIMEOUT] Lease expired (claimed_by=worker-a)"])
        ∧ t' !! "claimed_by" = None.
Proof.
  destruct (Leases.reap_maps_due_leases
              [Scenarios.leased] Scenarios.after_expiry)
    as (changed & Hret & Hchanged & _ & Hpos).
  { constructor; [|constructor].
    exact (LeaseFacts.lease_due_not_overflows _ _ leased_is_due). }
  destruct (Hpos 0%nat Scenarios.leased eq_refl) as (Hdue & _).
  destruct (Hdue leased_is_due) as (t' & Hi & Hs & Ha & Hlog & Hc & _).
  exists t'. split_and!; try assumption.
  rewrite Hret. f_equal. apply Hchanged.
  exists Scenarios.leased. split; [left | exact leased_is_due].
Defined.

(** Saving into an empty directory raises and writes nothing. *)
Lemma atomic_write_needs_existing_file_witness :
  (∅ : fs) !! ["harness-tasks.json"; "proj"] = None
  ∧ ∃ e, atomic_write_json ["harness-tasks.json"; "proj"] ∅ ∅ = (Raise e, ∅)
         ∧ (["harness-tasks.json"; "proj"] ≠ [] → e = FileNotFoundError).
Proof.
  split; [reflexivity|].
  apply (StoreClaims.atomic_write_needs_existing_file
           ∅ ["harness-tasks.json"; "proj"] ∅).
  reflexivity.
Defined.

Lemma stale_project_armed :
  armed (Scenarios.project_world Scenarios.stale_files)
        Scenarios.stop_payload ["proj"] 5.
Proof. repeat split; vm_compute; reflexivity. Defined.

Lemma drained_project_armed :
  armed (Scenarios.project_world Scenarios.drained_files)
        Scenarios.stop_payload ["proj"] 5.
Proof. repeat split; vm_compute; reflexivity. Defined.

(** The stale project of [test_stale_tasks_without_reflect_marker_is_noop]:
    no reflect marker, and yet a block decision. *)
Lemma reflect_blocks_without_pending_marker_witness :
  is_file (Scenarios.project_world Scenarios.stale_files)
          [".harness-reflect"; "proj"] = false
  ∧ ∃ reason,
      (main (Scenarios.project_world Scenarios.stale_files)
            Scenarios.stop_payload).1 = Block reason
      ∧ contains "1/5" reason.
Proof.
  split; [vm_compute; reflexivity|].
  apply (ReflectClaims.reflect_blocks_without_pending_marker
           (Scenarios.project_world Scenarios.stale_files)
           Scenarios.stop_payload ["proj"]).
  - exact stale_project_armed.
  - vm_compute; reflexivity.
  - vm_compute; reflexivity.
Defined.

(** The drained project: five blocks, a silent sixth invocation, and the
    reflect marker still in place. *)
Lemma sixth_invocation_keeps_reflect_marker_witness :
  ∃ r1 r2 r3 r4 r5 w',
    invocations 6 (Scenarios.project_world Scenarios.drained_files)
                Scenarios.stop_payload
    = ([Block r1; Block r2; Block r3; Block r4; Block r5; Silent], w')
    ∧ is_file w' [".harness-reflect"; "proj"] = true.
Proof.
  destruct (ReflectClaims.sixth_invocation_keeps_reflect_marker
              (Scenarios.project_world Scenarios.drained_files)
              Scenarios.stop_payload ["proj"])
    as (r1 & r2 & r3 & r4 & r5 & w' & E & _ & _ & _ & _ & _ & _ & Hm).
  - exact drained_project_armed.
  - vm_compute; reflexivity.
  - vm_compute; reflexivity.
  - exists r1, r2, r3, r4, r5, w'. split; assumption.
Defined.

End Witnesses.

(* ===================================================================== *)
(** ** More on eligibility *)
(* ===================================================================== *)

Module EligibilityMore.

Import Common EligibilityFacts.

Section Facts.
Context `{PyRuntime}.

Lemma sorted_head_least (t : dict) (l : list dict) :
  StronglySorted (λ a b, key_le (key a) (key b)) (t :: l) →
  ∀ u, u ∈ t :: l → key_le (key t) (key u).
Proof.
  intros Hs u Hu. apply StronglySorted_inv in Hs as [_ Hall].
  apply elem_of_cons in Hu as [->|Hu]; [apply key_le_refl|].
  by eapply Forall_forall in Hall.
Qed.

Lemma unique_ids_inj (tasks : list dict) (x y : dict) :
  NoDup (task_id <$> tasks) → x ∈ tasks → y ∈ tasks →
  task_id x = task_id y → x = y.
Proof.
  induction tasks as [|t tasks IH]; [by intros _ ?%elem_of_nil|].
  rewrite fmap_cons, NoDup_cons. intros [Hnot Hnd] Hx Hy Hid.
  apply elem_of_cons in Hx as [->|Hx], Hy as [->|Hy]; [done| | |by apply IH].
  - destruct Hnot. rewrite Hid. by apply list_elem_of_fmap_2.
  - destruct Hnot. rewrite <- Hid. by apply list_elem_of_fmap_2.
Qed.

Lemma completed_ids_perm (tasks tasks' : list dict) :
  tasks ≡ₚ tasks' → completed_ids tasks = completed_ids tasks'.
Proof.
  intros Hperm. apply set_eq. intros s.
  rewrite !Eligibility.elem_of_completed_ids.
  by setoid_rewrite Hperm.
Qed.

Lemma sort_by_key_perm_eq (tasks l1 l2 : list dict) :
  NoDup (task_id <$> tasks) → l1 ⊆ tasks → l1 ≡ₚ l2 →
  sort_by_key l1 = sort_by_key l2.
Proof.
  intros Hnd Hsub Hperm.
  apply (StronglySorted_unique_strong (λ a b, key_le (key a) (key b)));
    [|apply sort_by_key_sorted..|by rewrite !sort_by_key_perm].
  intros x1 x2 Hx1 Hx2 H12 H21.
  apply (proj1 (elem_of_sort_by_key _ _)) in Hx1.
  apply (proj1 (elem_of_sort_by_key _ _)) in Hx2.
  rewrite <- Hperm in Hx2.
  apply (unique_ids_inj tasks); [done|by apply Hsub..|].
  pose proof (key_le_antisym _ _ H12 H21) as Hkey.
  unfold key in Hkey. by injection Hkey.
Qed.

(** X1. A task is never in both ready lists, and its status decides which list
    it can be in: only [pending] tasks are pending-ready, only [failed]
    tasks with attempts left are retry-ready.  Completed and in-progress
    tasks are in neither. *)
Theorem ready_lists_disjoint (tasks : list dict) (t : dict) :
  ¬ (t ∈ (eligible_tasks tasks).1 ∧ t ∈ (eligible_tasks tasks).2)
  ∧ (task_status t ≠ "pending" → t ∉ (eligible_tasks tasks).1)
  ∧ (task_status t ≠ "failed" → t ∉ (eligible_tasks tasks).2)
  ∧ (task_max_attempts t ≤ task_attempts t → t ∉ (eligible_tasks tasks).2).
Proof.
  rewrite Eligibility.elem_of_pending_ready,
    Eligibility.elem_of_retry_ready.
  split_and!.
  - intros [(_ & Hp & _) (_ & Hf & _)]. by rewrite Hp in Hf.
  - tauto.
  - tauto.
  - intros Hle (_ & _ & Hlt & _). lia.
Qed.

(** X2. The task [pick_next] selects from the lists of [eligible_tasks] is a
    task of the input and the least of its list in (priority rank, id):
    of the pending-ready list when that is non-empty, otherwise of the
    retry-ready list.  It selects nothing exactly when no task of the
    input is in either list. *)
Theorem pick_next_is_least (tasks : list dict) :
  match pick_next (eligible_tasks tasks).1 (eligible_tasks tasks).2 with
  | Some t =>
      t ∈ tasks
      ∧ ((t ∈ (eligible_tasks tasks).1
          ∧ ∀ u, u ∈ (eligible_tasks tasks).1 → key_le (key t) (key u))
         ∨ ((eligible_tasks tasks).1 = []
            ∧ t ∈ (eligible_tasks tasks).2
            ∧ ∀ u, u ∈ (eligible_tasks tasks).2 → key_le (key t) (key u)))
  | None => (eligible_tasks tasks).1 = [] ∧ (eligible_tasks tasks).2 = []
  end.
Proof.
  pose proof (sort_by_key_sorted
                (filter (λ t, task_status t = "pending"
                   ∧ deps_completed t (completed_ids tasks) = true) tasks)) as H1.
  pose proof (sort_by_key_sorted
                (filter (λ t, task_status t = "failed"
                   ∧ task_attempts t < task_max_attempts t
                   ∧ deps_completed t (completed_ids tasks) = true) tasks)) as H2.
  pose proof (Eligibility.elem_of_pending_ready tasks) as Hp.
  pose proof (Eligibility.elem_of_retry_ready tasks) as Hr.
  change (sort_by_key _) with (eligible_tasks tasks).1 in H1.
  change (sort_by_key _) with (eligible_tasks tasks).2 in H2.
  revert H1 H2 Hp Hr. generalize (eligible_tasks tasks).
  intros [pending retry]; cbn [fst snd]. intros H1 H2 Hp Hr.
  destruct pending as [|t pending]; cbn [pick_next].
  - destruct retry as [|t retry]; [done|].
    split; [apply Hr; left|]. right. split_and!; [done|left|].
    by apply sorted_head_least.
  - split; [apply Hp; left|]. left. split; [left|].
    by apply sorted_head_least.
Qed.

(** X3. When the ids of the tasks are pairwise different, the ready lists do
    not depend on the order of the tasks in the document: any rearrangement
    of the task list gives the same two lists. *)
Theorem eligible_order_independent (tasks tasks' : list dict) :
  NoDup (task_id <$> tasks) → tasks ≡ₚ tasks' →
  eligible_tasks tasks = eligible_tasks tasks'.
Proof.
  intros Hnd Hperm. unfold eligible_tasks.
  rewrite <- (completed_ids_perm tasks tasks') by done.
  f_equal.
  - apply (sort_by_key_perm_eq tasks); [done| |by rewrite Hperm].
    intros x Hx. by apply list_elem_of_filter in Hx as [_ ?].
  - apply (sort_by_key_perm_eq tasks); [done| |by rewrite Hperm].
    intros x Hx. by apply list_elem_of_filter in Hx as [_ ?].
Qed.

End Facts.

End EligibilityMore.

(* ===================================================================== *)
(** ** More on lease reaping *)
(* ===================================================================== *)

Module LeaseMore.

Import Common FieldFacts LeaseFacts.

Section Facts.
Context `{PyRuntime}.

Lemma expire_lease_attempts (t : dict) :
  task_attempts (expire_lease t) = task_attempts t + 1.
Proof.
  assert (expire_lease t !! "attempts" = Some (VInt (task_attempts t + 1)))
    as Hatt.
  { unfold expire_lease.
    by destruct (_ !! "error_log") as [[]|]; simplify_map_eq. }
  unfold task_attempts at 1, dict_get. rewrite Hatt. simpl.
  unfold py_or. simpl.
  destruct (Z.eqb_spec (task_attempts t + 1) 0) as [E|E]; simpl; lia.
Qed.

Lemma expire_lease_keeps (t : dict) (k : string) :
  k ∈ ["id"; "max_attempts"; "depends_on"; "priority"] →
  expire_lease t !! k = t !! k.
Proof.
  intros Hk. apply expire_lease_other.
  repeat (apply elem_of_cons in Hk as [->|Hk];
          [repeat (apply not_elem_of_cons; split; [done|]);
           apply not_elem_of_nil|]).
  by apply elem_of_nil in Hk.
Qed.

Lemma expire_lease_id (t : dict) : task_id (expire_lease t) = task_id t.
Proof.
  unfold task_id, dict_get. rewrite expire_lease_keeps; [done|].
  repeat constructor.
Qed.

Lemma expire_lease_max_attempts (t : dict) :
  task_max_attempts (expire_lease t) = task_max_attempts t.
Proof.
  unfold task_max_attempts, dict_get. rewrite expire_lease_keeps; [done|].
  repeat constructor.
Qed.

Lemma expire_lease_deps (t : dict) (done : gset string) :
  deps_completed (expire_lease t) done = deps_completed t done.
Proof.
  unfold deps_completed, dict_get. rewrite expire_lease_keeps; [done|].
  repeat constructor.
Qed.

Lemma reap_loop_ids tasks now changed :
  task_id <$> (reap_loop tasks now changed).1 = task_id <$> tasks.
Proof.
  revert changed. induction tasks as [|t rest IH]; intros changed; [done|].
  destruct (reap_loop_cons t rest now changed)
    as [[_ ->]|[[_ ->]|(_ & _ & ->)]]; simpl; [|done|];
    rewrite IH; [by rewrite expire_lease_id | done].
Qed.

Lemma reap_loop_completed tasks now changed :
  completed_ids (reap_loop tasks now changed).1 = completed_ids tasks.
Proof.
  unfold completed_ids. f_equal.
  revert changed. induction tasks as [|t rest IH]; intros changed; [done|].
  destruct (reap_loop_cons t rest now changed)
    as [[Hd ->]|[[_ ->]|(_ & _ & ->)]]; simpl; [|done|].
  - rewrite !filter_cons. rewrite expire_lease_status.
    destruct Hd as [Hs _]. rewrite task_status_of, Hs.
    rewrite !decide_False by done. apply IH.
  - rewrite !filter_cons. destruct (decide _); simpl; by rewrite IH.
Qed.



(** X5. Reaping changes neither the id of any task nor which ids are
    completed, so it never changes whether the dependencies of a task are
    met.  This holds of the list as the call leaves it, whether it
    returns or raises: at every position the fields [id], [depends_on],
    [max_attempts] and [priority] are as before, and the task is
    [completed] exactly when it was. *)
Theorem reap_keeps_ids_and_completed (tasks : list dict) (now : Z) :
  task_id <$> (reap_stale_leases tasks now).1 = task_id <$> tasks
  ∧ completed_ids (reap_stale_leases tasks now).1 = completed_ids tasks
  ∧ (∀ t, deps_met (reap_stale_leases tasks now).1 t ↔ deps_met tasks t)
  ∧ (∀ i t, tasks !! i = Some t →
       ∃ t', (reap_stale_leases tasks now).1 !! i = Some t'
         ∧ t' !! "id" = t !! "id"
         ∧ t' !! "depends_on" = t !! "depends_on"
         ∧ t' !! "max_attempts" = t !! "max_attempts"
         ∧ t' !! "priority" = t !! "priority"
         ∧ (status_of t' = "completed" ↔ status_of t = "completed"))
  ∧ (∀ t, dependencies_completed (reap_stale_leases tasks now).1 t
          ↔ dependencies_completed tasks t).
Proof.
  assert (Hdeps : ∀ t, deps_met (reap_loop tasks now false).1 t
                       ↔ deps_met tasks t).
  { intros t. rewrite <- !Eligibility.deps_completed_met.
    by rewrite reap_loop_completed. }
  unfold reap_stale_leases. split_and!.
  - apply reap_loop_ids.
  - apply reap_loop_completed.
  - exact Hdeps.
  - intros i t Hi.
    destruct (reap_loop_lookup_cases tasks now false i t Hi)
      as [Hsame|[Hd Hexp]].
    + exists t. by split_and!.
    + exists (expire_lease t). split; [done|].
      rewrite !expire_lease_keeps by repeat constructor. split_and!; try done.
      rewrite <- !task_status_of, expire_lease_status.
      destruct Hd as [Hs _]. rewrite task_status_of, Hs. done.
  - intros t. by rewrite <- !deps_met_completed.
Qed.

(** X6. A task whose lease was reaped is retry-ready afterwards exactly when
    the attempt just counted leaves its [attempts] below its
    [max_attempts] and its dependencies are completed; it is never
    pending-ready.  The task is reaped when its lease is due and no task
    before it has a lease out of the [datetime] range. *)
Theorem reaped_task_retry_ready (tasks : list dict) (now : Z) (i : nat)
    (t : dict) :
  tasks !! i = Some t → lease_due t now →
  Forall (λ u, ¬ lease_overflows u) (take i tasks) →
  ∃ t', (reap_stale_leases tasks now).1 !! i = Some t'
    ∧ reaped t t'
    ∧ (t' ∈ (eligible_tasks (reap_stale_leases tasks now).1).2
       ↔ attempts_of t + 1 < max_attempts_of t
         ∧ dependencies_completed tasks t)
    ∧ t' ∉ (eligible_tasks (reap_stale_leases tasks now).1).1.
Proof.
  intros Hi Hdue Hall. unfold reap_stale_leases.
  destruct (reap_loop_lookup tasks now false i t Hi Hall) as [Hd _].
  specialize (Hd Hdue). exists (expire_lease t).
  split; [done|]. split; [apply expire_lease_reaped|].
  apply list_elem_of_lookup_2 in Hd.
  rewrite Eligibility.elem_of_retry_ready, Eligibility.elem_of_pending_ready.
  rewrite expire_lease_status, expire_lease_attempts,
    expire_lease_max_attempts.
  rewrite <- !Eligibility.deps_completed_met.
  rewrite reap_loop_completed, expire_lease_deps.
  rewrite Eligibility.deps_completed_met, deps_met_completed.
  rewrite task_attempts_of, task_max_attempts_of.
  split; [tauto|]. by intros (_ & ? & _).
Qed.

End Facts.

End LeaseMore.

(* ===================================================================== *)
(** ** Status summary and session configuration *)
(* ===================================================================== *)

Module SummaryFacts.

Import Summary.

Section Facts.
Context `{PyRuntime}.

(** The sum of the counts of a summary. *)
Abbreviation total := (map_fold (λ (_ : string) (n acc : Z), n + acc) 0).




Lemma total_count_task (counts : gmap string Z) (t : dict) :
  total (count_task counts t) = total counts + 1.
Proof.
  assert (Hcomm : ∀ (m : gmap string Z) (j1 j2 : string) (z1 z2 y : Z),
             j1 ≠ j2 → m !! j1 = Some z1 → m !! j2 = Some z2 →
             z1 + (z2 + y) = z2 + (z1 + y)) by (intros; lia).
  unfold count_task. set (s := counted_status t).
  destruct (counts !! s) as [n|] eqn:Hn; simpl.
  - rewrite <- (insert_delete_eq counts s).
    rewrite map_fold_insert_L; [|by eauto|by rewrite lookup_delete_eq].
    rewrite (map_fold_delete_L _ _ s n counts); [lia|by eauto|done].
  - rewrite map_fold_insert_L; [lia|by eauto|done].
Qed.

Lemma session_config_object (state cfg : dict) :
  state !! "session_config" = Some (VDict cfg) →
  get_session_config state = cfg.
Proof.
  intros Hs. unfold get_session_config, dict_get, py_or. rewrite Hs. simpl.
  case_bool_decide as Hsize; simpl; [|done].
  symmetry. by apply map_size_empty_inv.
Qed.


(** X8. The counts of [status_counts] add up to the number of tasks. *)
Theorem status_counts_total (tasks : list dict) :
  total (status_counts tasks) = Z.of_nat (length tasks).
Proof.
  unfold status_counts.
  assert (∀ acc, total (foldl count_task acc tasks)
                 = total acc + Z.of_nat (length tasks)) as Hgen.
  { induction tasks as [|t tasks IH]; intros acc; simpl; [lia|].
    rewrite IH, total_count_task. lia. }
  by rewrite Hgen, map_fold_empty.
Qed.

(** X9. A session is exclusive unless its configuration says [concurrent]:
    [is_concurrent(get_session_config(state))] is false when
    [session_config] is absent, falsy or not an object, and when its
    [concurrency_mode] is absent, falsy or a string other than
    [concurrent]; it is true for the string [concurrent]. *)
Theorem exclusive_by_default (state : dict) :
  (state !! "session_config" = None →
   is_concurrent (get_session_config state) = false)
  ∧ (∀ v, state !! "session_config" = Some v →
          truthy v = false ∨ is_dict v = false →
          is_concurrent (get_session_config state) = false)
  ∧ (∀ cfg, state !! "session_config" = Some (VDict cfg) →
            cfg !! "concurrency_mode" = None →
            is_concurrent (get_session_config state) = false)
  ∧ (∀ cfg v, state !! "session_config" = Some (VDict cfg) →
              cfg !! "concurrency_mode" = Some v → truthy v = false →
              is_concurrent (get_session_config state) = false)
  ∧ (∀ cfg mode, state !! "session_config" = Some (VDict cfg) →
                 cfg !! "concurrency_mode" = Some (VStr mode) →
                 is_concurrent (get_session_config state)
                 = String.eqb mode "concurrent").
Proof.
  split_and!.
  - intros Hs. unfold get_session_config, dict_get, py_or. by rewrite Hs.
  - intros v Hs [Hv|Hv]; unfold get_session_config, dict_get, py_or;
      rewrite Hs; simpl.
    + by rewrite Hv.
    + destruct (truthy v); [|done]. by destruct v.
  - intros cfg Hs Hm. rewrite (session_config_object state cfg Hs).
    unfold is_concurrent, dict_get. by rewrite Hm.
  - intros cfg v Hs Hm Hv. rewrite (session_config_object state cfg Hs).
    unfold is_concurrent, dict_get, py_or. rewrite Hm. simpl. by rewrite Hv.
  - intros cfg mode Hs Hm. rewrite (session_config_object state cfg Hs).
    unfold is_concurrent, dict_get, py_or. rewrite Hm. simpl.
    destruct (String.eqb_spec mode "") as [->|_]; simpl; done.
Qed.

End Facts.

End SummaryFacts.

(* ===================================================================== *)
(** ** The dangerous-command filter *)
(* ===================================================================== *)

Module PreBashFacts.

Import PreBash.

Lemma prefix_iff (p s : string) :
  String.prefix p s = true ↔ ∃ rest, s = p +:+ rest.
Proof.
  revert s. induction p as [|c p IH]; intros s.
  - split; [|by destruct s]. intros _. by exists s.
  - destruct s as [|d s]; simpl.
    + split; [done|]. by intros [rest ?].
    + destruct (ascii_dec c d) as [->|Hne].
      * rewrite IH. split; intros [rest Hr]; exists rest.
        -- by rewrite Hr.
        -- by injection Hr.
      * split; [done|]. intros [rest Hr]. by injection Hr.
Qed.

Lemma substringb_iff (p s : string) :
  substringb p s = true ↔ Reflect.contains p s.
Proof.
  unfold Reflect.contains. split.
  - induction s as [|c s IH]; cbn [substringb].
    + rewrite orb_false_r. intros [rest Hr]%prefix_iff. by exists "", rest.
    + intros [[rest Hr]%prefix_iff|Hs]%orb_true_iff.
      * by exists "", rest.
      * destruct (IH Hs) as (before & after & ->).
        by exists (String c before), after.
  - intros (before & after & ->).
    induction before as [|c before IH].
    + change ("" +:+ p +:+ after) with (p +:+ after).
      destruct (p +:+ after) eqn:E; cbn [substringb]; rewrite <- E.
      * rewrite orb_false_r. apply prefix_iff. by exists after.
      * apply orb_true_iff. left. apply prefix_iff. by exists after.
    + change (String c before +:+ p +:+ after)
        with (String c (before +:+ p +:+ after)).
      cbn [substringb]. rewrite IH. apply orb_true_r.
Qed.

Lemma contains_embed (p c before after : string) :
  Reflect.contains p c → Reflect.contains p (before +:+ c +:+ after).
Proof.
  intros (b & a & ->). exists (before +:+ b), (a +:+ after).
  by rewrite !ReflectFacts.string_app_assoc.
Qed.

(** The loop stops at the first pattern that occurs in the command. *)
Lemma scan_first (patterns : list string) (command : string) :
  (scan patterns command = {| status := 0; stderr := None |}
   ∧ ∀ p, p ∈ patterns → ¬ Reflect.contains p command)
  ∨ ∃ before p after,
      patterns = before ++ p :: after
      ∧ Reflect.contains p command
      ∧ (∀ q, q ∈ before → ¬ Reflect.contains q command)
      ∧ scan patterns command
        = {| status := 1;
             stderr := Some ("[CWF] BLOCKED: Dangerous command detected: "
                             +:+ p) |}.
Proof.
  induction patterns as [|p patterns IH]; simpl.
  - left. split; [done|]. by intros ? ?%elem_of_nil.
  - destruct (substringb p command) eqn:Hp.
    + right. exists [], p, patterns. split_and!; try done.
      * by apply substringb_iff.
      * by intros ? ?%elem_of_nil.
    + assert (¬ Reflect.contains p command) as Hnot.
      { intros Hc%substringb_iff. congruence. }
      destruct IH as [[-> Hall]|(before & q & after & -> & Hq & Hb & ->)].
      * left. split; [done|]. by intros q [->|?]%elem_of_cons; auto.
      * right. exists (p :: before), q, after. split_and!; try done.
        by intros r [->|?]%elem_of_cons; auto.
Qed.

(** X10. The filter refuses a command exactly when one of the dangerous
    patterns occurs in it: the exit status is 1 then and 0 otherwise, and
    an accepted command leaves the error stream empty.  Only the first
    argument is inspected, and without one the command is accepted. *)
Theorem pre_bash_blocks_iff (prog command : string) (rest : list string) :
  (status (main (prog :: command :: rest)) = 1
   ↔ ∃ p, p ∈ DANGEROUS_PATTERNS ∧ Reflect.contains p command)
  ∧ (status (main (prog :: command :: rest)) = 0
     ↔ ∀ p, p ∈ DANGEROUS_PATTERNS → ¬ Reflect.contains p command)
  ∧ (status (main (prog :: command :: rest)) = 0 →
     stderr (main (prog :: command :: rest)) = None)
  ∧ main [prog] = {| status := 0; stderr := None |}.
Proof.
  unfold main.
  destruct (scan_first DANGEROUS_PATTERNS command)
    as [[-> Hall]|(before & p & after & Hpat & Hp & Hb & ->)]; simpl.
  - split_and!; try done.
    split; [done|]. intros (p & Hin & Hp). by destruct (Hall p).
  - assert (p ∈ DANGEROUS_PATTERNS) as Hin.
    { rewrite Hpat. apply elem_of_app. right. left. }
    split_and!; try done.
    + split; [|done]. intros _. by exists p.
    + split; [done|]. intros Hall. by destruct (Hall p).
Qed.

(** X11. When the filter refuses a command, the pattern it names is the first
    of the list, in the order of the list, that occurs in the command. *)
Theorem pre_bash_names_first_match (prog command msg : string)
    (rest : list string) :
  stderr (main (prog :: command :: rest)) = Some msg →
  ∃ before p after,
    DANGEROUS_PATTERNS = before ++ p :: after
    ∧ msg = "[CWF] BLOCKED: Dangerous command detected: " +:+ p
    ∧ Reflect.contains p command
    ∧ ∀ q, q ∈ before → ¬ Reflect.contains q command.
Proof.
  unfold main.
  destruct (scan_first DANGEROUS_PATTERNS command)
    as [[-> _]|(before & p & after & Hpat & Hp & Hb & ->)]; simpl; [done|].
  intros [= <-]. by exists before, p, after.
Qed.

(** X12. A refused command stays refused inside any longer command: text put
    before or after it does not get it past the filter. *)
Theorem pre_bash_embedding_stays_blocked (prog command before after : string) :
  status (main [prog; command]) = 1 →
  status (main [prog; before +:+ command +:+ after]) = 1.
Proof.
  unfold main. intros Hblocked.
  destruct (scan_first DANGEROUS_PATTERNS command)
    as [[E _]|(b & p & a & Hpat & Hp & _ & _)].
  { by rewrite E in Hblocked. }
  destruct (scan_first DANGEROUS_PATTERNS (before +:+ command +:+ after))
    as [[_ Hall]|(? & ? & ? & _ & _ & _ & E)]; [|by rewrite E].
  destruct (Hall p).
  - rewrite Hpat. apply elem_of_app. right. left.
  - by apply contains_embed.
Qed.

End PreBashFacts.

(* ===================================================================== *)
(** ** More on saving *)
(* ===================================================================== *)

Module StoreMore.

Import Store StoreFacts.

Section Facts.
Context `{PyRuntime}.

(** X13. Saving over an existing document and loading it again gives back the
    saved object, provided the JSON text written can be encoded as UTF-8
    and decodes to the object.  The previous text is kept under the
    [.bak] name, no temporary file is left, and no other file is
    touched. *)
Theorem save_then_load (σ : fs) (name : string) (parent : path)
    (data : dict) (old : string) :
  σ !! (name :: parent) = Some old →
  utf8_encodable (json_dumps_indent2 (VDict data) +:+ newline) = true →
  json_loads (json_dumps_indent2 (VDict data) +:+ newline)
  = Some (VDict data) →
  ∃ σ', atomic_write_json (name :: parent) data σ = (Ok tt, σ')
    ∧ load_json (name :: parent) σ' = (Ok data, σ')
    ∧ σ' !! ((name +:+ ".bak") :: parent) = Some old
    ∧ σ' !! ((name +:+ ".tmp") :: parent) = None
    ∧ ∀ q, q ∉ [name :: parent; (name +:+ ".bak") :: parent;
                (name +:+ ".tmp") :: parent] →
           σ' !! q = σ !! q.
Proof.
  intros Hold Henc Hcodec.
  destruct (sibling_names name) as (Hbak & Htmp & Hne).
  rewrite (atomic_write_result σ name parent data old Hold Henc).
  eexists. split; [done|]. split_and!.
  - unfold load_json. rewrite lookup_insert_eq. by rewrite Hcodec.
  - rewrite lookup_insert_ne by congruence.
    rewrite lookup_delete_ne by congruence.
    rewrite lookup_insert_ne by congruence.
    by rewrite lookup_insert_eq.
  - rewrite lookup_insert_ne by congruence.
    by rewrite lookup_delete_eq.
  - intros q Hq. repeat (apply not_elem_of_cons in Hq as [? Hq]).
    rewrite lookup_insert_ne by done.
    rewrite lookup_delete_ne by done.
    by rewrite !lookup_insert_ne by done.
Qed.


(** X21. A save whose text cannot be encoded as UTF-8, as when a string of
    the document holds a lone surrogate, raises [UnicodeEncodeError]
    after the backup was made: the document keeps its previous text and
    loads as before, [.bak] holds that text too, the temporary file is
    left behind, empty, and no other file is touched. *)
Theorem unencodable_save_keeps_document (σ : fs) (name : string)
    (parent : path) (data : dict) (old : string) :
  σ !! (name :: parent) = Some old →
  utf8_encodable (json_dumps_indent2 (VDict data) +:+ newline) = false →
  ∃ σ', atomic_write_json (name :: parent) data σ
        = (Raise UnicodeEncodeError, σ')
    ∧ σ' !! (name :: parent) = Some old
    ∧ (load_json (name :: parent) σ').1 = (load_json (name :: parent) σ).1
    ∧ σ' !! ((name +:+ ".bak") :: parent) = Some old
    ∧ σ' !! ((name +:+ ".tmp") :: parent) = Some ""
    ∧ ∀ q, q ∉ [(name +:+ ".bak") :: parent; (name +:+ ".tmp") :: parent] →
           σ' !! q = σ !! q.
Proof.
  intros Hold Henc.
  destruct (sibling_names name) as (Hbak & Htmp & Hne).
  rewrite (atomic_write_unencodable σ name parent data old Hold Henc).
  eexists. split; [done|].
  assert (Hdoc : (<[(name +:+ ".tmp") :: parent := ""]>
                    (<[(name +:+ ".bak") :: parent := old]> σ))
                 !! (name :: parent) = Some old).
  { by rewrite !lookup_insert_ne by congruence. }
  split_and!.
  - done.
  - unfold load_json. rewrite Hdoc, Hold.
    by destruct (json_loads old) as [[]|].
  - rewrite lookup_insert_ne by congruence. by rewrite lookup_insert_eq.
  - by rewrite lookup_insert_eq.
  - intros q Hq. repeat (apply not_elem_of_cons in Hq as [? Hq]).
    by rewrite !lookup_insert_ne by done.
Qed.

End Facts.

End StoreMore.

(* ===================================================================== *)
(** ** More on the reflection stop hook *)
(* ===================================================================== *)

Module ReflectMore.

Import Store Reflect ReflectFacts.

Section Facts.
Context `{PyRuntime}.

(** What an invocation leaves behind: the world as it was, or the world
    with the counter of the session advanced; the former whenever it ends
    without output. *)
Lemma main_world_cases (w : world) (payload : dict) :
  (main w payload).2 = w
  ∨ ((main w payload).1 ≠ Silent
     ∧ (main w payload).2
       = _write_counter w (dict_get payload "session_id" (VStr ""))
           (_read_counter w (dict_get payload "session_id" (VStr "")) + 1)).
Proof.
  unfold main.
  repeat (match goal with
          | |- context [if ?b then _ else _] => destruct b
          | |- context [match ?x with _ => _ end] => destruct x
          end; simpl; try (by left)); by right.
Qed.



Lemma counter_paths_differ (w : world) (sid sid' : value) :
  py_str sid' ≠ py_str sid → _counter_path w sid' ≠ _counter_path w sid.
Proof.
  unfold _counter_path. intros Hne [= Heq]. by apply String.app_inj in Heq.
Qed.

Lemma read_other_after_write (w : world) (sid sid' : value) (n : Z) :
  py_str sid' ≠ py_str sid →
  _read_counter (_write_counter w sid n) sid' = _read_counter w sid'.
Proof.
  intros Hne.
  destruct (write_counter_frame w sid n) as (_ & _ & Htmp & _ & _ & _ & Hf).
  unfold _read_counter. unfold _counter_path at 1. rewrite Htmp.
  fold (_counter_path w sid'). rewrite Hf; [done|].
  by apply counter_paths_differ.
Qed.



(** X15. The hook writes nothing but the counter file of its own session,
    for a session id whose text is a file name (it holds no [/]): the
    environment and every other file are as before, an invocation that
    ends without output changes nothing at all, and the counter of any
    other session whose id is a file name reads as before. *)
Theorem main_writes_only_its_counter (w : world) (payload : dict) :
  plain_name (py_str (dict_get payload "session_id" (VStr ""))) = true →
  environ (main w payload).2 = environ w
  ∧ gettempdir (main w payload).2 = gettempdir w
  ∧ (∀ p, p ≠ _counter_path w (dict_get payload "session_id" (VStr "")) →
          files (main w payload).2 !! p = files w !! p)
  ∧ ((main w payload).1 = Silent → (main w payload).2 = w)
  ∧ (∀ sid', plain_name (py_str sid') = true →
             py_str sid' ≠ py_str (dict_get payload "session_id" (VStr "")) →
             _read_counter (main w payload).2 sid' = _read_counter w sid').
Proof.
  intros _.
  destruct (main_world_cases w payload) as [->|[Hout ->]].
  - by split_and!.
  - destruct (write_counter_frame w
                (dict_get payload "session_id" (VStr ""))
                (_read_counter w (dict_get payload "session_id" (VStr "")) + 1))
      as (? & _ & ? & _ & _ & _ & ?).
    split_and!; try done.
    intros sid' _ Hne. by apply read_other_after_write.
Qed.


End Facts.

End ReflectMore.

Module ReflectLoop.

Import Store Reflect ReflectFacts.

Section Facts.
Context `{PyRuntime}.

Lemma search_candidates_sound (w : world) (candidates : list string)
    (seen : list path) (root : path) :
  search_candidates w candidates seen = Some root →
  is_file w ("harness-tasks.json" :: root) = true
  ∧ ∃ c base, c ∈ candidates ∧ resolve w c = Some base
              ∧ root ∈ base :: take 8 (parents base).
Proof.
  revert seen. induction candidates as [|c rest IH]; intros seen; [done|].
  cbn [search_candidates].
  assert (∀ seen', search_candidates w rest seen' = Some root →
            is_file w ("harness-tasks.json" :: root) = true
            ∧ ∃ c' base, c' ∈ c :: rest ∧ resolve w c' = Some base
                         ∧ root ∈ base :: take 8 (parents base)) as Hrest.
  { intros seen' Hs. destruct (IH seen' Hs) as (? & c' & base & ? & ? & ?).
    split; [done|]. exists c', base. split_and!; [by right|done..]. }
  destruct (resolve w c) as [base|] eqn:Hres; [|by apply Hrest].
  case_bool_decide; [by apply Hrest|].
  destruct (List.find _ _) as [parent|] eqn:Hfind; [|by apply Hrest].
  intros [= ->]. apply List.find_some in Hfind as [Hin Hdoc].
  split; [done|]. exists c, base. split_and!; [left|done|].
  by apply list_elem_of_In.
Qed.

(** When the search finds nothing, no candidate that resolves has the
    document in its directory or its first eight ancestors. *)
Lemma search_candidates_complete (w : world) (candidates : list string)
    (seen : list path) :
  (∀ b, b ∈ seen →
        ∀ parent, parent ∈ b :: take 8 (parents b) →
                  is_file w ("harness-tasks.json" :: parent) = false) →
  search_candidates w candidates seen = None →
  ∀ c base, c ∈ candidates → resolve w c = Some base →
            ∀ parent, parent ∈ base :: take 8 (parents base) →
                      is_file w ("harness-tasks.json" :: parent) = false.
Proof.
  revert seen. induction candidates as [|c rest IH]; intros seen Hseen;
    [by intros _ ? ? ?%elem_of_nil|].
  cbn [search_candidates].
  destruct (resolve w c) as [base|] eqn:Hres.
  - case_bool_decide as Hin.
    + intros Hs c' base' Hc' Hres'.
      apply elem_of_cons in Hc' as [->|Hc']; [|by apply (IH seen Hseen Hs c')].
      rewrite Hres in Hres'. injection Hres' as <-. by apply Hseen.
    + destruct (List.find _ _) as [parent|] eqn:Hfind; [done|].
      assert (∀ parent, parent ∈ base :: take 8 (parents base) →
                is_file w ("harness-tasks.json" :: parent) = false) as Hbase.
      { intros parent Hp. apply list_elem_of_In in Hp.
        pose proof (List.find_none _ _ Hfind parent Hp) as Hnone.
        exact Hnone. }
      intros Hs c' base' Hc' Hres'.
      apply elem_of_cons in Hc' as [->|Hc'].
      * rewrite Hres in Hres'. by injection Hres' as <-.
      * apply (IH (base :: seen)) with c'; [|done..].
        intros b Hb. apply elem_of_cons in Hb as [->|Hb]; [done|].
        by apply Hseen.
  - intros Hs c' base' Hc' Hres'.
    apply elem_of_cons in Hc' as [->|Hc']; [congruence|].
    by apply (IH seen Hseen Hs c').
Qed.

(** The directories [find_harness_root] searches from, besides the state
    root: the value of [CLAUDE_PROJECT_DIR] when it is set and not empty,
    then the [cwd] of the payload when it is a non-empty string, or the
    working directory of the process when the payload has no [cwd] or a
    falsy one. *)
Lemma discovery_candidates (w : world) (payload : dict) (cwd c : string) :
  py_or (dict_get payload "cwd" VNone) (VStr (getcwd w)) = VStr cwd →
  c ∈ match env_nonempty w "CLAUDE_PROJECT_DIR" with
      | Some s => [s]
      | None => []
      end ++ [cwd] ↔
  (environ w !! "CLAUDE_PROJECT_DIR" = Some c ∧ c ≠ "")
  ∨ (payload !! "cwd" = Some (VStr c) ∧ c ≠ "")
  ∨ (c = getcwd w
     ∧ (payload !! "cwd" = None
        ∨ ∃ v, payload !! "cwd" = Some v ∧ truthy v = false)).
Proof.
  intros Hcwd.
  assert (c = cwd ↔ (payload !! "cwd" = Some (VStr c) ∧ c ≠ "")
                    ∨ (c = getcwd w
                       ∧ (payload !! "cwd" = None
                          ∨ ∃ v, payload !! "cwd" = Some v
                                 ∧ truthy v = false))) as Hc.
  { unfold py_or, dict_get in Hcwd.
    destruct (payload !! "cwd") as [v|] eqn:Hp; simpl in Hcwd.
    - destruct (truthy v) eqn:Ht.
      + subst v. simpl in Ht.
        destruct (String.eqb_spec cwd "") as [|Hne]; [done|].
        split.
        * intros ->. by left.
        * intros [[[= ->] _]|[_ [?|(v & [= <-] & Hv)]]]; [done..|].
          simpl in Hv. by destruct (String.eqb_spec cwd "").
      + injection Hcwd as <-. split.
        * intros ->. right. split; [done|]. right. eauto.
        * intros [[[= ->] Hne]|[-> _]]; [|done].
          simpl in Ht. by destruct (String.eqb_spec c "").
    - injection Hcwd as <-. split.
      + intros ->. right. split; [done|]. by left.
      + by intros [[? _]|[-> _]]. }
  unfold env_nonempty.
  destruct (environ w !! "CLAUDE_PROJECT_DIR") as [s|] eqn:He.
  - destruct (String.eqb_spec s "") as [->|Hne].
    + rewrite app_nil_l, list_elem_of_singleton, Hc. split; [by right|].
      intros [[[= <-] ?]|?]; done.
    + rewrite elem_of_app, !list_elem_of_singleton, Hc. split.
      * intros [->|?]; [by left | by right].
      * intros [[[= <-] _]|?]; [by left | by right].
  - rewrite app_nil_l, list_elem_of_singleton, Hc. split; [by right|].
    by intros [[? _]|?].
Qed.

(** X17. A root that [find_harness_root] returns holds the task document, and
    it is the directory the state root resolves to, or the directory a
    candidate resolves to or one of its first eight ancestors, the
    candidates being the value of [CLAUDE_PROJECT_DIR] and the working
    directory of the payload or, failing that, of the process.  When
    the discovery finds no root, no candidate that resolves has the
    document in its directory or its first eight ancestors. *)
Theorem find_harness_root_sound (w : world) (payload : dict) :
  (∀ root, find_harness_root w payload = Some (Some root) →
     is_file w ("harness-tasks.json" :: root) = true
     ∧ ((∃ s, environ w !! "HARNESS_STATE_ROOT" = Some s ∧ s ≠ ""
              ∧ resolve w s = Some root)
        ∨ ∃ c base,
            ((environ w !! "CLAUDE_PROJECT_DIR" = Some c ∧ c ≠ "")
             ∨ (payload !! "cwd" = Some (VStr c) ∧ c ≠ "")
             ∨ (c = getcwd w
                ∧ (payload !! "cwd" = None
                   ∨ ∃ v, payload !! "cwd" = Some v ∧ truthy v = false)))
            ∧ resolve w c = Some base
            ∧ root ∈ base :: take 8 (parents base)))
  ∧ (find_harness_root w payload = Some None →
     ∀ c base,
       (environ w !! "CLAUDE_PROJECT_DIR" = Some c ∧ c ≠ "")
       ∨ (payload !! "cwd" = Some (VStr c) ∧ c ≠ "")
       ∨ (c = getcwd w
          ∧ (payload !! "cwd" = None
             ∨ ∃ v, payload !! "cwd" = Some v ∧ truthy v = false)) →
       resolve w c = Some base →
       ∀ parent, parent ∈ base :: take 8 (parents base) →
                 is_file w ("harness-tasks.json" :: parent) = false).
Proof.
  assert (Hsearch : ∀ root cwd,
            py_or (dict_get payload "cwd" VNone) (VStr (getcwd w)) = VStr cwd →
            search_candidates w
              (match env_nonempty w "CLAUDE_PROJECT_DIR" with
               | Some s => [s]
               | None => []
               end ++ [cwd]) [] = Some root →
            is_file w ("harness-tasks.json" :: root) = true
            ∧ ((∃ s, environ w !! "HARNESS_STATE_ROOT" = Some s ∧ s ≠ ""
                     ∧ resolve w s = Some root)
               ∨ ∃ c base,
                   ((environ w !! "CLAUDE_PROJECT_DIR" = Some c ∧ c ≠ "")
                    ∨ (payload !! "cwd" = Some (VStr c) ∧ c ≠ "")
                    ∨ (c = getcwd w
                       ∧ (payload !! "cwd" = None
                          ∨ ∃ v, payload !! "cwd" = Some v
                                 ∧ truthy v = false)))
                   ∧ resolve w c = Some base
                   ∧ root ∈ base :: take 8 (parents base))).
  { intros root cwd Hcwd Hs.
    apply search_candidates_sound in Hs as (Hdoc & c & base & Hc & Hres & Hin).
    split; [done|]. right. exists c, base. split_and!; [|done..].
    by apply (discovery_candidates w payload cwd c Hcwd). }
  assert (Hnone : ∀ cwd,
            py_or (dict_get payload "cwd" VNone) (VStr (getcwd w)) = VStr cwd →
            search_candidates w
              (match env_nonempty w "CLAUDE_PROJECT_DIR" with
               | Some s => [s]
               | None => []
               end ++ [cwd]) [] = None →
            ∀ c base,
              (environ w !! "CLAUDE_PROJECT_DIR" = Some c ∧ c ≠ "")
              ∨ (payload !! "cwd" = Some (VStr c) ∧ c ≠ "")
              ∨ (c = getcwd w
                 ∧ (payload !! "cwd" = None
                    ∨ ∃ v, payload !! "cwd" = Some v ∧ truthy v = false)) →
              resolve w c = Some base →
              ∀ parent, parent ∈ base :: take 8 (parents base) →
                        is_file w ("harness-tasks.json" :: parent) = false).
  { intros cwd Hcwd Hs c base Hc.
    apply (search_candidates_complete w _ [] (λ b Hb, match elem_of_nil b
      with conj f _ => False_ind _ (f Hb) end) Hs c base).
    by apply (discovery_candidates w payload cwd c Hcwd). }
  unfold find_harness_root. split.
  - intros root.
    destruct (env_nonempty w "HARNESS_STATE_ROOT") as [s|] eqn:Henv; simpl.
    + assert (environ w !! "HARNESS_STATE_ROOT" = Some s ∧ s ≠ "")
        as [He Hne].
      { unfold env_nonempty in Henv.
        destruct (environ w !! "HARNESS_STATE_ROOT") as [s'|]; [|done].
        destruct (String.eqb_spec s' "") as [|Hne]; [done|].
        by injection Henv as ->. }
      destruct (resolve w s) as [p|] eqn:Hres; simpl.
      * destruct (is_file w ("harness-tasks.json" :: p)) eqn:Hdoc.
        -- intros [= <-]. split; [done|]. left. by exists s.
        -- destruct (py_or _ _) eqn:Hcwd; try done.
           intros [= Hs]. by eapply Hsearch.
      * destruct (py_or _ _) eqn:Hcwd; try done.
        intros [= Hs]. by eapply Hsearch.
    + destruct (py_or _ _) eqn:Hcwd; try done.
      intros [= Hs]. by eapply Hsearch.
  - destruct (env_nonempty w "HARNESS_STATE_ROOT") as [s|]; simpl.
    + destruct (resolve w s) as [p|]; simpl.
      * destruct (is_file w ("harness-tasks.json" :: p)); [done|].
        destruct (py_or _ _) eqn:Hcwd; try done.
        intros [= Hs]. by eapply Hnone.
      * destruct (py_or _ _) eqn:Hcwd; try done.
        intros [= Hs]. by eapply Hnone.
    + destruct (py_or _ _) eqn:Hcwd; try done.
      intros [= Hs]. by eapply Hnone.
Qed.

(** X18. A state root given in [HARNESS_STATE_ROOT] that holds the task
    document is the root, whatever the payload says: the working
    directory of the payload is not even looked at, so a payload whose
    [cwd] is not a string cannot make the discovery fail. *)
Theorem state_root_override_wins (w : world) (payload : dict) (s : string)
    (p : path) :
  environ w !! "HARNESS_STATE_ROOT" = Some s → s ≠ "" →
  resolve w s = Some p →
  is_file w ("harness-tasks.json" :: p) = true →
  find_harness_root w payload = Some (Some p).
Proof.
  intros Henv Hs Hres Hdoc. unfold find_harness_root, env_nonempty.
  rewrite Henv.
  destruct (String.eqb_spec s "") as [?|_]; [done|].
  by rewrite Hres, Hdoc.
Qed.



End Facts.

End ReflectLoop.

(* ===================================================================== *)
(** ** The further properties at concrete documents *)
(* ===================================================================== *)

Module MoreWitnesses.

Import Common Store Reflect ReferenceFacts.

(** The reference runtime with the codec of the empty object. *)
Definition codec_runtime : PyRuntime := {|
  py_repr := λ _, "<repr>";
  py_int_of_str := Reference.int_of_str;
  py_strip := Reference.strip;
  fromisoformat := Reference.example_fromisoformat;
  json_loads := MoreScenarios.empty_object_loads;
  json_dumps_indent2 := MoreScenarios.empty_object_dumps;
  Py.int_of_str_decimal := int_of_str_decimal;
  Py.strip_decimal := strip_decimal
|}.

Lemma eligible_order_independent_witness :
  eligible_tasks [Scenarios.low_t1; Scenarios.high_t2]
  = eligible_tasks [Scenarios.high_t2; Scenarios.low_t1].
Proof.
  apply EligibilityMore.eligible_order_independent.
  - apply (bool_decide_unpack _). vm_compute. exact I.
  - apply Permutation_swap.
Defined.

(** The reference runtime with the text of a document that holds a lone
    surrogate. *)
Definition surrogate_runtime : PyRuntime := {|
  py_repr := λ _, "<repr>";
  py_int_of_str := Reference.int_of_str;
  py_strip := Reference.strip;
  fromisoformat := Reference.example_fromisoformat;
  json_loads := λ _, None;
  json_dumps_indent2 := MoreScenarios.surrogate_note_dumps;
  Py.int_of_str_decimal := int_of_str_decimal;
  Py.strip_decimal := strip_decimal
|}.


Lemma reaped_task_retry_ready_witness :
  ∃ t', (reap_stale_leases [Scenarios.leased] Scenarios.after_expiry).1
          !! 0%nat = Some t'
        ∧ t' !! "attempts" = Some (VInt 2)
        ∧ (t' ∈ (eligible_tasks
                   (reap_stale_leases [Scenarios.leased]
                                      Scenarios.after_expiry).1).2
           ↔ 1 + 1 < 3 ∧ dependencies_completed [Scenarios.leased]
                                                Scenarios.leased).
Proof.
  destruct (LeaseMore.reaped_task_retry_ready
              [Scenarios.leased] Scenarios.after_expiry 0 Scenarios.leased)
    as (t' & Hi & Hr & Hretry & _).
  - reflexivity.
  - exact Witnesses.leased_is_due.
  - constructor.
  - exists t'. split; [exact Hi|]. split; [|exact Hretry].
    destruct Hr as (_ & Ha & _). exact Ha.
Defined.

Lemma pre_bash_names_first_match_witness :
  ∃ before p after,
    PreBash.DANGEROUS_PATTERNS = before ++ p :: after
    ∧ "[CWF] BLOCKED: Dangerous command detected: dd if="
      = "[CWF] BLOCKED: Dangerous command detected: " +:+ p
    ∧ contains p "sudo dd if=/dev/zero of=/dev/sda; mkfs.ext4 /dev/sda"
    ∧ ∀ q, q ∈ before →
           ¬ contains q "sudo dd if=/dev/zero of=/dev/sda; mkfs.ext4 /dev/sda".
Proof.
  apply (PreBashFacts.pre_bash_names_first_match
           "pre-bash.py"
           "sudo dd if=/dev/zero of=/dev/sda; mkfs.ext4 /dev/sda"
           "[CWF] BLOCKED: Dangerous command detected: dd if=" []).
  vm_compute. reflexivity.
Defined.

Lemma pre_bash_embedding_stays_blocked_witness :
  PreBash.status (PreBash.main ["pre-bash.py"; "rm -rf /"]) = 1
  ∧ PreBash.status
      (PreBash.main ["pre-bash.py"; "cd /tmp && " +:+ "rm -rf /" +:+ "*"])
    = 1.
Proof.
  split; [vm_compute; reflexivity|].
  apply (PreBashFacts.pre_bash_embedding_stays_blocked
           "pre-bash.py" "rm -rf /" "cd /tmp && " "*").
  vm_compute. reflexivity.
Defined.

Lemma save_then_load_witness :
  ∃ σ', @atomic_write_json codec_runtime ["harness-tasks.json"; "proj"] ∅
          MoreScenarios.one_document = (Ok tt, σ')
    ∧ @load_json codec_runtime ["harness-tasks.json"; "proj"] σ' = (Ok ∅, σ')
    ∧ σ' !! ["harness-tasks.json.bak"; "proj"] = Some "old text".
Proof.
  destruct (@StoreMore.save_then_load codec_runtime
              MoreScenarios.one_document "harness-tasks.json" ["proj"] ∅
              "old text")
    as (σ' & Hsave & Hload & Hbak & _).
  - vm_compute. reflexivity.
  - vm_compute. reflexivity.
  - vm_compute. reflexivity.
  - exists σ'. repeat split; assumption.
Defined.


(** A document with a lone surrogate saved over an existing one: the save
    raises, the document is as before and an empty temporary file is
    left. *)
Lemma unencodable_save_keeps_document_witness :
  ∃ σ', @atomic_write_json surrogate_runtime ["harness-tasks.json"; "proj"]
          MoreScenarios.surrogate_note MoreScenarios.one_document
        = (Raise UnicodeEncodeError, σ')
    ∧ σ' !! ["harness-tasks.json"; "proj"] = Some "old text"
    ∧ σ' !! ["harness-tasks.json.bak"; "proj"] = Some "old text"
    ∧ σ' !! ["harness-tasks.json.tmp"; "proj"] = Some "".
Proof.
  destruct (@StoreMore.unencodable_save_keeps_document surrogate_runtime
              MoreScenarios.one_document "harness-tasks.json" ["proj"]
              MoreScenarios.surrogate_note "old text")
    as (σ' & Hsave & Hdoc & _ & Hbak & Htmp & _).
  - vm_compute. reflexivity.
  - vm_compute. reflexivity.
  - exists σ'. repeat split; assumption.
Defined.

(** The drained project: the first invocation for [test-stale] leaves the
    reflect marker and the counter of another session as they were. *)
Lemma main_writes_only_its_counter_witness :
  files (main (Scenarios.project_world Scenarios.drained_files)
              Scenarios.stop_payload).2 !! [".harness-reflect"; "proj"]
  = Some ""
  ∧ _read_counter (main (Scenarios.project_world Scenarios.drained_files)
                        Scenarios.stop_payload).2 (VStr "other")
    = _read_counter (Scenarios.project_world Scenarios.drained_files)
                    (VStr "other").
Proof.
  destruct (ReflectMore.main_writes_only_its_counter
              (Scenarios.project_world Scenarios.drained_files)
              Scenarios.stop_payload)
    as (_ & _ & Hfiles & _ & Hother).
  - vm_compute. reflexivity.
  - split.
    + rewrite Hfiles; [reflexivity | discriminate].
    + apply Hother; [vm_compute; reflexivity | discriminate].
Defined.

Lemma find_harness_root_sound_witness :
  find_harness_root (Scenarios.project_world Scenarios.stale_files)
                    Scenarios.stop_payload = Some (Some ["proj"])
  ∧ is_file (Scenarios.project_world Scenarios.stale_files)
            ["harness-tasks.json"; "proj"] = true.
Proof.
  split; [vm_compute; reflexivity|].
  apply (proj1 (ReflectLoop.find_harness_root_sound
                  (Scenarios.project_world Scenarios.stale_files)
                  Scenarios.stop_payload) ["proj"]).
  vm_compute. reflexivity.
Defined.

Lemma state_root_override_wins_witness :
  find_harness_root MoreScenarios.override_world MoreScenarios.odd_payload
  = Some (Some ["proj"]).
Proof.
  apply (ReflectLoop.state_root_override_wins
           MoreScenarios.override_world MoreScenarios.odd_payload
           "/proj" ["proj"]).
  - vm_compute. reflexivity.
  - discriminate.
  - reflexivity.
  - vm_compute. reflexivity.
Defined.



End MoreWitnesses.
